(** * Score aggregation of [app.py]: a shallow embedding and its properties

    The program, as [src/app.py] has it, run by CPython 3.11:

    - [Py]       the Python values that [json.loads] can put in a score list,
                 the exceptions the program can meet, and the error monad;
    - [Unicode]  text as code points: UTF-8, and the digits and white space
                 of the Unicode database that [str.isdigit], [float], [int]
                 and [str.strip] consult;
    - [Float]    Python's [float] (IEEE binary64) on top of the Standard
                 Library's executable specification [SpecFloat];
    - [Dec]      the part of the [decimal] module the program uses
                 ([Decimal(float)], [round(d, 0)] under ROUND_HALF_UP, [int(d)]);
    - [Score]    [calculate_final_score], statement by statement;
    - [Seats]    the seat-number ordering of the result table;
    - [Batch]    [process_image_with_gemini] and the per-file loop.

    Then the facts: [ScoreFacts], [FloatFacts], [DecFacts] and [OrderFacts]
    about the filter, binary64 rounding, the decimal step and the order of
    doubles; [ScoreClaims], [OrderClaims], [RangeClaims], [SeatsClaims] and
    [BatchClaims] hold the properties of the specification.

    Text is modelled by [string], read as the UTF-8 encoding of a Python
    [str]: byte-wise comparison of UTF-8 text is code-point comparison, which
    is the order Python uses on [str]. *)

From Stdlib Require Import ZArith List String Ascii Bool Lia Permutation Sorted.
From Stdlib Require Import Floats.SpecFloat.
From Stdlib Require OrdersEx.
Import ListNotations.

Local Open Scope Z_scope.

Set Warnings "-register-all".

(* ===================================================================== *)
(** ** Python values, exceptions, results *)
(* ===================================================================== *)

Module Py.

(** What [json.loads] can return, and therefore what an element of
    [valid_scores] can be. *)
Inductive pyobj : Type :=
| PyNone
| PyBool (b : bool)
| PyInt (z : Z)
| PyFloat (f : spec_float)
| PyStr (s : string)
| PyList (items : list pyobj)
| PyDict (items : list (string * pyobj)).

Inductive exn : Type :=
| ValueError
| OverflowError
| ZeroDivisionError
| TypeError
| AttributeError
| InvalidOperation      (* decimal.InvalidOperation *)
| OtherError (msg : string).

(** A call either returns or raises. *)
Inductive result (A : Type) : Type :=
| Return (a : A)
| Raise (e : exn).

Arguments Return {A} a.
Arguments Raise {A} e.

Definition bind {A B : Type} (c : result A) (k : A -> result B) : result B :=
  match c with
  | Return a => k a
  | Raise e => Raise e
  end.

(** The value a call returned, if it returned. *)
Definition returned {A : Type} (c : result A) : option A :=
  match c with
  | Return a => Some a
  | Raise _ => None
  end.

End Py.

Import Py.

Declare Scope py_scope.
Delimit Scope py_scope with py.
Notation "x <- c ;; k" := (bind c (fun x => k))
  (at level 61, c at next level, right associativity) : py_scope.
Local Open Scope py_scope.

(* ===================================================================== *)
(** ** Text: code points and their properties *)
(* ===================================================================== *)

Module Unicode.

Local Open Scope N_scope.

(** *** UTF-8 *)

(** The payload of a continuation byte [10xxxxxx]. *)
Definition continuation (b : ascii) : option N :=
  let n := N_of_ascii b in
  if (128 <=? n) && (n <? 192) then Some (n - 128) else None.

(** The code point spelt by two, three and four bytes.  Overlong forms
    and values beyond U+10FFFF are no text; a surrogate is accepted, as
    a Python [str] may hold one. *)
Definition two_bytes (a b : ascii) : option N :=
  let n := N_of_ascii a in
  if (194 <=? n) && (n <? 224) then
    match continuation b with
    | Some x => Some ((n - 192) * 64 + x)
    | None => None
    end
  else None.

Definition three_bytes (a b c : ascii) : option N :=
  let n := N_of_ascii a in
  if (224 <=? n) && (n <? 240) then
    match continuation b, continuation c with
    | Some x, Some y =>
        let p := (n - 224) * 4096 + x * 64 + y in
        if 2048 <=? p then Some p else None
    | _, _ => None
    end
  else None.

Definition four_bytes (a b c d : ascii) : option N :=
  let n := N_of_ascii a in
  if (240 <=? n) && (n <? 245) then
    match continuation b, continuation c, continuation d with
    | Some x, Some y, Some z =>
        let p := (n - 240) * 262144 + x * 4096 + y * 64 + z in
        if (65536 <=? p) && (p <=? 1114111) then Some p else None
    | _, _, _ => None
    end
  else None.

(** The code points of a text, [None] when the bytes are no UTF-8. *)
Fixpoint decode (s : string) : option (list N) :=
  match s with
  | EmptyString => Some []
  | String a s1 =>
      if N_of_ascii a <? 128 then option_map (cons (N_of_ascii a)) (decode s1)
      else
        match s1 with
        | EmptyString => None
        | String b s2 =>
            match two_bytes a b with
            | Some p => option_map (cons p) (decode s2)
            | None =>
                match s2 with
                | EmptyString => None
                | String c s3 =>
                    match three_bytes a b c with
                    | Some p => option_map (cons p) (decode s3)
                    | None =>
                        match s3 with
                        | EmptyString => None
                        | String d s4 =>
                            match four_bytes a b c d with
                            | Some p => option_map (cons p) (decode s4)
                            | None => None
                            end
                        end
                    end
                end
            end
        end
  end.

(** *** Character properties (Unicode 14.0.0, the database of CPython 3.11) *)

Definition within (c : N) (r : N * N) : bool := (fst r <=? c) && (c <=? snd r).

(** The decimal digits (general category Nd), as ranges of code points.
    Each range runs through the digits 0 to 9 in order, once or, for the
    mathematical digits, five times. *)
Definition decimal_digits : list (N * N) :=
  [
    (48, 57); (1632, 1641); (1776, 1785); (1984, 1993); (2406, 2415);
    (2534, 2543); (2662, 2671); (2790, 2799); (2918, 2927); (3046, 3055);
    (3174, 3183); (3302, 3311); (3430, 3439); (3558, 3567); (3664, 3673);
    (3792, 3801); (3872, 3881); (4160, 4169); (4240, 4249); (6112, 6121);
    (6160, 6169); (6470, 6479); (6608, 6617); (6784, 6793); (6800, 6809);
    (6992, 7001); (7088, 7097); (7232, 7241); (7248, 7257); (42528, 42537);
    (43216, 43225); (43264, 43273); (43472, 43481); (43504, 43513);
    (43600, 43609); (44016, 44025); (65296, 65305); (66720, 66729);
    (68912, 68921); (69734, 69743); (69872, 69881); (69942, 69951);
    (70096, 70105); (70384, 70393); (70736, 70745); (70864, 70873);
    (71248, 71257); (71360, 71369); (71472, 71481); (71904, 71913);
    (72016, 72025); (72784, 72793); (73040, 73049); (73120, 73129);
    (92768, 92777); (92864, 92873); (93008, 93017); (120782, 120831);
    (123200, 123209); (123632, 123641); (125264, 125273); (130032, 130041)
  ].

(** The other characters with a digit value (Numeric_Type=Digit):
    superscripts, subscripts, circled and parenthesised digits and the
    like. *)
Definition other_digits : list (N * N) :=
  [
    (178, 179); (185, 185); (4969, 4977); (6618, 6618); (8304, 8304);
    (8308, 8313); (8320, 8329); (9312, 9320); (9332, 9340); (9352, 9360);
    (9450, 9450); (9461, 9469); (9471, 9471); (10102, 10110); (10112, 10120);
    (10122, 10130); (68160, 68163); (69216, 69224); (69714, 69722);
    (127232, 127242)
  ].

(** White space in the sense of [str.isspace] and [str.strip]. *)
Definition white_space : list (N * N) :=
  [ (9, 13); (28, 32); (133, 133); (160, 160); (5760, 5760); (8192, 8202);
    (8232, 8233); (8239, 8239); (8287, 8287); (12288, 12288) ].

(** The value of a decimal digit. *)
Definition decimal (c : N) : option N :=
  match find (within c) decimal_digits with
  | Some r => Some ((c - fst r) mod 10)
  | None => None
  end.

Definition is_decimal (c : N) : bool := existsb (within c) decimal_digits.

(** A digit in the sense of [str.isdigit]. *)
Definition is_digit (c : N) : bool :=
  is_decimal c || existsb (within c) other_digits.

Definition is_space (c : N) : bool := existsb (within c) white_space.

End Unicode.

(* ===================================================================== *)
(** ** Python [float]: IEEE binary64 *)
(* ===================================================================== *)

Module Float.

Definition prec : Z := 53.
Definition emax : Z := 1024.

Definition float := spec_float.

Definition pos_zero : float := S754_zero false.
Definition nan : float := S754_nan.

Definition add : float -> float -> float := SFadd prec emax.
Definition div : float -> float -> float := SFdiv prec emax.
Definition ltb : float -> float -> bool := SFltb.

(** The double nearest to an integer, ties to even; an infinity when the
    integer is beyond the range of doubles. *)
Definition of_Z (z : Z) : float := binary_normalize prec emax z 0 false.

Definition is_nan (f : float) : bool :=
  match f with S754_nan => true | _ => false end.

Definition is_zero (f : float) : bool :=
  match f with S754_zero _ => true | _ => false end.

(** A double as the code can hold it: canonical mantissa, exponent in range. *)
Definition valid (f : float) : bool := valid_binary prec emax f.

(** The exact value of a finite double in units of 2^-1074, the spacing of
    the smallest doubles: every finite double is an integer number of them. *)
Definition units (f : float) : Z :=
  match f with
  | S754_finite s m e => cond_Zopp s (Z.pos m * 2 ^ (e + 1074))
  | _ => 0
  end.

Definition unit_scale : Z := 2 ^ 1074.

(** [float(z)] for an [int]: raises OverflowError where the nearest double
    would be an infinity (CPython's [PyLong_AsDouble]). *)
Definition of_int (z : Z) : result float :=
  match of_Z z with
  | S754_infinity _ => Raise OverflowError
  | f => Return f
  end.

(** [sum(xs)]: the start value is the int 0, and [0 + x] on a float [x] is
    the double addition [0.0 + x]; the rest is a left fold of [+], as in
    CPython up to 3.11 (later versions carry a compensation term along,
    which changes no sum of one or two doubles). *)
Definition sum (xs : list float) : float := fold_left add xs pos_zero.

(** [x / n] for a float [x] and the int [n = len(...)]: the int is converted
    (exactly, a list length is far below 2^53), a zero divisor raises. *)
Definition truediv (x : float) (n : Z) : result float :=
  if n =? 0 then Raise ZeroDivisionError else Return (div x (of_Z n)).

End Float.

(* ===================================================================== *)
(** ** The [decimal] module, as far as the program uses it *)
(* ===================================================================== *)

Module Dec.

(** A [Decimal]: sign, coefficient and exponent ([coeff * 10^exp]), or a
    special value. *)
Inductive Decimal : Type :=
| DNaN
| DInfinity (s : bool)
| DFinite (s : bool) (coeff : Z) (exp : Z).

(** Precision of the default context; the program changes only the rounding
    mode of the context. *)
Definition context_prec : Z := 28.

(** [float.as_integer_ratio]: cancel the powers of two shared by the
    mantissa [m] and the denominator [2^k]. *)
Fixpoint lowest_terms (m : positive) (k : nat) : positive * nat :=
  match m, k with
  | xO m', S k' => lowest_terms m' k'
  | _, _ => (m, k)
  end.

(** [Decimal(f)] is exact: [n / 2^k = n * 5^k / 10^k]. *)
Definition from_float (f : Float.float) : Decimal :=
  match f with
  | S754_nan => DNaN
  | S754_infinity s => DInfinity s
  | S754_zero s => DFinite s 0 0
  | S754_finite s m e =>
      if 0 <=? e then DFinite s (Z.pos m * 2 ^ e) 0
      else let '(n, k) := lowest_terms m (Z.to_nat (- e)) in
           DFinite s (Z.pos n * 5 ^ Z.of_nat k) (- Z.of_nat k)
  end.

(** The coefficient of [coeff * 10^exp] rescaled to exponent 0 under
    ROUND_HALF_UP: drop the fractional digits and add one when the first
    dropped digit is 5 or more. *)
Definition rescale0_half_up (coeff exp : Z) : Z :=
  if 0 <=? exp then coeff * 10 ^ exp
  else
    let p := 10 ^ (- exp) in
    let q := coeff / p in
    let r := coeff mod p in
    if 5 * 10 ^ (- exp - 1) <=? r then q + 1 else q.

(** [round(d, 0)], that is [d.quantize(Decimal(1))], with the context
    rounding set to ROUND_HALF_UP.  A quiet NaN passes through, an infinity
    and a result of more than [context_prec] digits signal InvalidOperation,
    which the default context traps. *)
Definition round0 (d : Decimal) : result Decimal :=
  match d with
  | DNaN => Return DNaN
  | DInfinity _ => Raise InvalidOperation
  | DFinite s c e =>
      if c =? 0 then Return (DFinite s 0 0)
      else if 10 ^ (context_prec - e) <=? c then Raise InvalidOperation
      else
        let c' := rescale0_half_up c e in
        if 10 ^ context_prec <=? c' then Raise InvalidOperation
        else Return (DFinite s c' 0)
  end.

(** [int(d)]: truncation toward zero; NaN and infinities raise. *)
Definition to_int (d : Decimal) : result Z :=
  match d with
  | DNaN => Raise ValueError
  | DInfinity _ => Raise OverflowError
  | DFinite s c e =>
      let a := if 0 <=? e then c * 10 ^ e else c / 10 ^ (- e) in
      Return (cond_Zopp s a)
  end.

End Dec.

(* ===================================================================== *)
(** ** [calculate_final_score] *)
(* ===================================================================== *)

Module Score.

Import Float Dec.

(** *** Text predicates *)

Definition is_ascii_digit (c : ascii) : bool :=
  let n := N_of_ascii c in ((48 <=? n) && (n <=? 57))%N.

(** [t.isdigit()]: there is at least one character and every character is
    a digit, of whatever script. *)
Definition isdigit (t : string) : bool :=
  match Unicode.decode t with
  | Some (c :: cs) => forallb Unicode.is_digit (c :: cs)
  | _ => false
  end.

Fixpoint all_ascii_digits (s : string) : bool :=
  match s with
  | EmptyString => true
  | String c rest => is_ascii_digit c && all_ascii_digits rest
  end.

(** Value of a decimal numeral, most significant digit first. *)
Fixpoint numeral_value (acc : Z) (s : string) : Z :=
  match s with
  | EmptyString => acc
  | String c rest => numeral_value (10 * acc + (Z.of_N (N_of_ascii c) - 48)) rest
  end.

(** The same on code points, each decimal digit with its own value;
    [None] when a character is no decimal digit. *)
Fixpoint decimal_value (acc : Z) (cs : list N) : option Z :=
  match cs with
  | [] => Some acc
  | c :: rest =>
      match Unicode.decimal c with
      | Some d => decimal_value (10 * acc + Z.of_N d) rest
      | None => None
      end
  end.

(** *** The two tests and the conversion of the list comprehension *)

(** [str(s)] raises ValueError on an int of more than 4300 digits, the
    default of [sys.get_int_max_str_digits()] in CPython 3.11.  (So does
    the text of a list or dict that holds such an int; the text of a
    container is not modelled further than its opening bracket.) *)
Definition max_str_digits : Z := 4300.

Definition int_str_bound : Z := Eval vm_compute in 10 ^ max_str_digits.

Definition str_raises (s : pyobj) : bool :=
  match s with
  | PyInt z => int_str_bound <=? Z.abs z
  | _ => false
  end.

(** [str(s).isdigit()], for an [s] that has a text.  [str] of an int is its
    decimal numeral, with a leading minus sign when negative; [str] of None
    and of a bool is a word; the repr of a float always has a point, an
    exponent, "inf" or "nan"; the repr of a list or dict starts with a
    bracket. *)
Definition str_isdigit (s : pyobj) : bool :=
  match s with
  | PyStr t => isdigit t
  | PyInt z => 0 <=? z
  | PyNone | PyBool _ | PyFloat _ | PyList _ | PyDict _ => false
  end.

(** [isinstance(s, (int, float))]; [bool] is a subclass of [int]. *)
Definition isinstance_int_float (s : pyobj) : bool :=
  match s with
  | PyBool _ | PyInt _ | PyFloat _ => true
  | _ => false
  end.

Definition keeps (s : pyobj) : bool := str_isdigit s || isinstance_int_float s.

(** [float(t)] on a text [t] made of digits, the only texts the filter lets
    through: a numeral of decimal digits, of whatever scripts, is read to
    the nearest double (an infinity when too large); a digit character that
    is no decimal digit is refused. *)
Definition float_of_str (t : string) : result float :=
  match Unicode.decode t with
  | Some (c :: cs) =>
      match decimal_value 0 (c :: cs) with
      | Some v => Return (of_Z v)
      | None => Raise ValueError
      end
  | _ => Raise ValueError
  end.

(** [float(s)]. *)
Definition to_float (s : pyobj) : result float :=
  match s with
  | PyBool b => Return (of_Z (if b then 1 else 0))
  | PyInt z => of_int z
  | PyFloat f => Return f
  | PyStr t => float_of_str t
  | PyNone | PyList _ | PyDict _ => Raise TypeError
  end.

(** [[float(s) for s in scores if ...]]: elements are visited in order;
    the condition starts with [str(s)], and the first failing [str] or
    conversion ends the comprehension. *)
Fixpoint comprehension (scores : list pyobj) : result (list float) :=
  match scores with
  | [] => Return []
  | s :: rest =>
      if str_raises s then Raise ValueError
      else if keeps s then
        f <- to_float s ;;
        fs <- comprehension rest ;;
        Return (f :: fs)
      else comprehension rest
  end.

(** *** Sorting and slicing *)

(** The stable descending order: an element moves behind exactly the
    elements that compare greater.  On a list without NaN the comparison is
    a total preorder, and this is the one result a stable sort can give. *)
Fixpoint insert_desc (x : float) (l : list float) : list float :=
  match l with
  | [] => [x]
  | y :: l' => if ltb x y then y :: insert_desc x l' else x :: l
  end.

Fixpoint stable_descending (l : list float) : list float :=
  match l with
  | [] => []
  | x :: l' => insert_desc x (stable_descending l')
  end.

(** With a NaN in the list the comparisons are no order and the result is
    whatever the algorithm makes of them.  CPython 3.11 sorts a list of
    fewer than 64 elements as one run: [count_run] finds the initial run,
    ascending or strictly descending (then reversed), and [binarysort]
    inserts the remaining elements one by one, each at the place a binary
    search gives. *)
Section ShortSort.

Context {A : Type}.
Variable lt : A -> A -> bool.

(** The stretch after [prev] in which every element stands in the relation
    [ok] to the one before it, and the rest. *)
Fixpoint run_from (ok : A -> A -> bool) (prev : A) (l : list A) : list A * list A :=
  match l with
  | x :: l' =>
      if ok prev x
      then let (run, rest) := run_from ok x l' in (x :: run, rest)
      else ([], l)
  | [] => ([], [])
  end.

Definition count_run (l : list A) : list A * list A :=
  match l with
  | a :: b :: l' =>
      if lt b a
      then let (run, rest) := run_from (fun p x => lt x p) b l' in
           (rev (a :: b :: run), rest)
      else let (run, rest) := run_from (fun p x => negb (lt x p)) b l' in
           (a :: b :: run, rest)
  | _ => (l, [])
  end.

(** The binary search of [binarysort] between the indices [l] and [r]. *)
Fixpoint bisect (fuel : nat) (pivot : A) (run : list A) (l r : nat) : nat :=
  match fuel with
  | O => l
  | S fuel' =>
      if (l <? r)%nat then
        let p := (l + (r - l) / 2)%nat in
        if lt pivot (nth p run pivot)
        then bisect fuel' pivot run l p
        else bisect fuel' pivot run (p + 1)%nat r
      else l
  end.

Definition insert_sorted (run : list A) (pivot : A) : list A :=
  let i := bisect (List.length run) pivot run 0%nat (List.length run) in
  firstn i run ++ pivot :: skipn i run.

Definition short_sort (l : list A) : list A :=
  let (run, rest) := count_run l in fold_left insert_sorted rest run.

End ShortSort.

Definition no_nan (l : list float) : bool :=
  forallb (fun f => negb (is_nan f)) l.

(** [l.sort(reverse=True)] on floats: the list is reversed, sorted in
    ascending order and reversed again, which keeps the sort stable.
    Without NaN that is the stable descending order, for a list of any
    length; with NaN it is the sort of a short list (for 64 elements and
    more CPython merges several runs, which is not modelled). *)
Definition sort_reverse (l : list float) : list float :=
  if no_nan l then stable_descending l
  else rev (short_sort ltb (rev l)).

(** [l[:n]]; a negative [n] counts from the end. *)
Definition slice_to {A : Type} (l : list A) (n : Z) : list A :=
  if 0 <=? n then firstn (Z.to_nat n) l
  else firstn (Z.to_nat (Z.of_nat (List.length l) + n)) l.

Definition len {A : Type} (l : list A) : Z := Z.of_nat (List.length l).

Definition is_empty {A : Type} (l : list A) : bool :=
  match l with [] => true | _ => false end.

(** *** The function *)

(** Lines 71-74: the selected scores and their mean. *)
Definition top_scores_of (valid_scores : list float) (top_n : Z) : list float :=
  slice_to (sort_reverse valid_scores) top_n.

Definition average (top_scores : list float) : result float :=
  truediv (sum top_scores) (len top_scores).

(** Lines 77-82: [int(round(decimal.Decimal(avg), 0))] under ROUND_HALF_UP. *)
Definition round_half_up_int (avg : float) : result Z :=
  final_avg <- round0 (from_float avg) ;;
  to_int final_avg.

Definition calculate_final_score (scores : list pyobj) (top_n : Z) : result Z :=
  if is_empty scores then Return 0
  else
    valid_scores <- comprehension scores ;;
    if is_empty valid_scores then Return 0
    else
      let top_scores := top_scores_of valid_scores top_n in
      avg <- average top_scores ;;
      round_half_up_int avg.

End Score.

(* ===================================================================== *)
(** ** Ordering the result table by seat number (lines 126-130) *)
(* ===================================================================== *)

Module Seats.

Import Score.

(** *** [astype(int)] on one seat number *)

(** The white space [int] skips at both ends of a text: tab, line feed,
    vertical tab, form feed, carriage return and space, and the white space
    beyond ASCII.  (The ASCII separators U+001C to U+001F, white space for
    [str.strip], are none for [int].) *)
Definition is_space (c : N) : bool :=
  (((9 <=? c) && (c <=? 13)) || (c =? 32)
   || ((128 <=? c) && Unicode.is_space c))%N.

Fixpoint lstrip (s : list N) : list N :=
  match s with
  | c :: rest => if is_space c then lstrip rest else s
  | [] => s
  end.

Definition rstrip (s : list N) : list N := rev (lstrip (rev s)).

Definition strip (s : list N) : list N := rstrip (lstrip s).

(** Decimal digits of whatever script, single underscores allowed between
    two digits. *)
Fixpoint digits_value (acc : Z) (after_digit : bool) (s : list N) : option Z :=
  match s with
  | [] => if after_digit then Some acc else None
  | c :: rest =>
      match Unicode.decimal c with
      | Some d => digits_value (10 * acc + Z.of_N d) true rest
      | None =>
          if (c =? 95)%N
          then (if after_digit then digits_value acc false rest else None)
          else None
      end
  end.

Definition digit_count (s : list N) : Z :=
  Z.of_nat (List.length (filter Unicode.is_decimal s)).

(** [int(t)] on a text: white space, an optional sign, digits; a numeral
    of more than 4300 digits is refused, as in [str] of an int. *)
Definition int_of_str (t : string) : option Z :=
  match Unicode.decode t with
  | None => None
  | Some cs =>
      let u := strip cs in
      if max_str_digits <? digit_count u then None
      else
        match u with
        | c :: rest =>
            if (c =? 45)%N then option_map Z.opp (digits_value 0 false rest)
            else if (c =? 43)%N then digits_value 0 false rest
            else digits_value 0 false u
        | [] => None
        end
  end.

(** The conversion of one cell by [astype(int)]: [int(t)], which must fit
    the 64-bit integers of the column. *)
Definition astype_int (t : string) : option Z :=
  match int_of_str t with
  | Some z => if (- 2 ^ 63 <=? z) && (z <? 2 ^ 63) then Some z else None
  | None => None
  end.

Definition parses (t : string) : bool :=
  match astype_int t with Some _ => true | None => false end.

Definition int_or_zero (t : string) : Z :=
  match astype_int t with Some z => z | None => 0 end.

(** *** [sort_values] *)

Section SortValues.

Context {row K : Type}.
Variable key : row -> K.
Variable lt : K -> K -> bool.

(** Ascending sort on a key.  pandas leaves the order of rows with equal
    keys open (its default sort is not stable); the model keeps them in
    their original order, one of the orders pandas may give. *)
Fixpoint insert_row (x : row) (l : list row) : list row :=
  match l with
  | [] => [x]
  | y :: l' => if lt (key y) (key x) then y :: insert_row x l' else x :: l
  end.

Fixpoint sort_values (l : list row) : list row :=
  match l with
  | [] => []
  | x :: l' => insert_row x (sort_values l')
  end.

End SortValues.

(** *** The all-or-nothing policy *)

Section Ordering.

Context {row : Type}.
Variable seat : row -> string.

(** The [try] block succeeds when every cell converts; then the rows are
    sorted on the converted column.  Any failure sends the whole table
    to the [except] branch, which sorts on the text. *)
Definition order_rows (rows : list row) : list row :=
  if forallb (fun r => parses (seat r)) rows
  then sort_values (fun r => int_or_zero (seat r)) Z.ltb rows
  else sort_values seat String.ltb rows.

End Ordering.

End Seats.

(* ===================================================================== *)
(** ** The per-file loop of the main script (lines 28-59 and 89-120) *)
(* ===================================================================== *)

Module Batch.

Import Score.

(** *** Text operations of line 56 *)

Fixpoint drop_prefix (p s : string) : option string :=
  match p, s with
  | EmptyString, _ => Some s
  | String a p', String b s' => if Ascii.eqb a b then drop_prefix p' s' else None
  | String _ _, EmptyString => None
  end.

(** [s.replace(old, "")] for a non-empty [old]: occurrences are removed
    from left to right; [fuel] bounds the number of steps by the length. *)
Fixpoint remove_fuel (fuel : nat) (old s : string) : string :=
  match fuel with
  | O => s
  | S fuel' =>
      match drop_prefix old s with
      | Some rest => remove_fuel fuel' old rest
      | None =>
          match s with
          | EmptyString => EmptyString
          | String c rest => String c (remove_fuel fuel' old rest)
          end
      end
  end.

Definition remove (old s : string) : string :=
  remove_fuel (String.length s) old s.

(** White space that [str.strip] removes, here the characters of one
    byte: tab to carriage return, the separators U+001C to U+001F, space. *)
Definition is_py_space (c : ascii) : bool :=
  ((N_of_ascii c <? 128) && Unicode.is_space (N_of_ascii c))%N.

(** [s.lstrip()]: white-space characters are taken off the head, whether
    spelt in one, two or three bytes (none takes four). *)
Fixpoint lstrip (s : string) : string :=
  match s with
  | EmptyString => s
  | String a s1 =>
      if is_py_space a then lstrip s1
      else
        match s1 with
        | EmptyString => s
        | String b s2 =>
            match Unicode.two_bytes a b with
            | Some p => if Unicode.is_space p then lstrip s2 else s
            | None =>
                match s2 with
                | EmptyString => s
                | String c s3 =>
                    match Unicode.three_bytes a b c with
                    | Some p => if Unicode.is_space p then lstrip s3 else s
                    | None => s
                    end
                end
            end
        end
  end.

(** [s.rstrip()]: the longest tail made of white space is taken off. *)
Fixpoint rstrip (s : string) : string :=
  match s with
  | EmptyString => s
  | String c rest =>
      match lstrip s with
      | EmptyString => EmptyString
      | _ => String c (rstrip rest)
      end
  end.

Definition clean (text : string) : string :=
  rstrip (lstrip (remove "```" (remove "```json" text))).

(** *** Python operations on the decoded value *)

Fixpoint contains (sub s : string) : bool :=
  match drop_prefix sub s with
  | Some _ => true
  | None => match s with
            | EmptyString => false
            | String _ rest => contains sub rest
            end
  end.

Fixpoint lookup (k : string) (items : list (string * pyobj)) : option pyobj :=
  match items with
  | [] => None
  | (k', v) :: rest => if String.eqb k k' then Some v else lookup k rest
  end.

Definition is_text (k : string) (v : pyobj) : bool :=
  match v with PyStr t => String.eqb k t | _ => false end.

(** [k in data]: key of a dict, element of a list, substring of a str. *)
Definition py_in (k : string) (data : pyobj) : result bool :=
  match data with
  | PyDict items => Return (match lookup k items with Some _ => true | None => false end)
  | PyList items => Return (existsb (is_text k) items)
  | PyStr t => Return (contains k t)
  | _ => Raise TypeError
  end.

(** [data[k]] for a text key. *)
Definition getitem (data : pyobj) (k : string) : result pyobj :=
  match data with
  | PyDict items =>
      match lookup k items with
      | Some v => Return v
      | None => Raise (OtherError "KeyError")
      end
  | _ => Raise TypeError
  end.

(** [data.get(k, default)]. *)
Definition get (data : pyobj) (k : string) (default : pyobj) : result pyobj :=
  match data with
  | PyDict items =>
      Return (match lookup k items with Some v => v | None => default end)
  | _ => Raise AttributeError
  end.

Definition truthy (v : pyobj) : bool :=
  match v with
  | PyNone => false
  | PyBool b => b
  | PyInt z => negb (z =? 0)
  | PyFloat f => negb (Float.is_zero f)
  | PyStr t => negb (String.eqb t "")
  | PyList items => negb (is_empty items)
  | PyDict items => negb (is_empty items)
  end.

Definition is_continuation (c : ascii) : bool :=
  let n := N_of_ascii c in ((128 <=? n) && (n <=? 191))%N.

(** The characters of a text: a UTF-8 character is a byte followed by its
    continuation bytes. *)
Fixpoint characters (s : string) : list string :=
  match s with
  | EmptyString => []
  | String c rest =>
      match characters rest with
      | String d ch :: more =>
          if is_continuation d then String c (String d ch) :: more
          else String c EmptyString :: String d ch :: more
      | more => String c EmptyString :: more
      end
  end.

(** Iterating a value: the items of a list, the keys of a dict, the
    characters of a str. *)
Definition iterate (v : pyobj) : result (list pyobj) :=
  match v with
  | PyList items => Return items
  | PyDict items => Return (map (fun kv => PyStr (fst kv)) items)
  | PyStr t => Return (map PyStr (characters t))
  | _ => Raise TypeError
  end.

(** [calculate_final_score] on whatever the reply held under
    "valid_scores": line 62 tests the truth value, line 65 iterates. *)
Definition calculate_final_score_any (scores : pyobj) (top_n : Z) : result Z :=
  if negb (truthy scores) then Return 0
  else items <- iterate scores ;; calculate_final_score items top_n.

(** *** Files, screen and table *)

(** One uploaded file, with what the outside world does for it:
    whether [Image.open] succeeds, and what the try block of
    [process_image_with_gemini] meets before [json.loads]: an exception
    (its message) or the text of the reply. *)
Record upload : Type := {
  filename : string;
  image_opens : bool;
  reply : string + string
}.

Inductive ui_event : Type :=
| Info (file : string)
| Error (file : string) (detail : pyobj)
| Progress (done total : Z).

Record ResultRecord : Type := {
  source : string;
  seat_number : pyobj;
  final_score : Z;
  raw_scores : pyobj
}.

Record state : Type := {
  results : list ResultRecord;
  screen : list ui_event
}.

Definition show (st : state) (ev : ui_event) : state :=
  {| results := results st; screen := screen st ++ [ev] |}.

Definition append (st : state) (r : ResultRecord) : state :=
  {| results := results st ++ [r]; screen := screen st |}.

Definition start : state := {| results := []; screen := [] |}.

Definition unknown_seat : pyobj := PyStr "未知".

Section MainLoop.

(** [json.loads]: the message of the exception it raises, or the value. *)
Variable json_loads : string -> string + pyobj.

(** The sidebar setting, at least 1. *)
Variable threshold_count : Z.

Definition error_dict (msg : string) : pyobj := PyDict [("error"%string, PyStr msg)].

(** Lines 53-59: whatever is raised inside the try block comes back as
    a dict with the key "error". *)
Definition process_image_with_gemini (u : upload) : pyobj :=
  match reply u with
  | inl msg => error_dict msg
  | inr text =>
      match json_loads (clean text) with
      | inl msg => error_dict msg
      | inr data => data
      end
  end.

(** Lines 92-118, one iteration. *)
Definition step (total : Z) (st : state) (i : Z) (u : upload) : result state :=
  let st := show st (Info (filename u)) in
  if negb (image_opens u) then Raise (OtherError "Image.open")
  else
    let data := process_image_with_gemini u in
    failed <- py_in "error" data ;;
    if (failed : bool) then
      detail <- getitem data "error" ;;
      Return (show st (Error (filename u) detail))
    else
      seat_num <- get data "seat_number" unknown_seat ;;
      raw <- get data "valid_scores" (PyList []) ;;
      final <- calculate_final_score_any raw threshold_count ;;
      let st := append st {| source := filename u; seat_number := seat_num;
                             final_score := final; raw_scores := raw |} in
      Return (show st (Progress (i + 1) total)).

Fixpoint loop (total : Z) (st : state) (i : Z) (uploads : list upload)
    : result state :=
  match uploads with
  | [] => Return st
  | u :: rest => st' <- step total st i u ;; loop total st' (i + 1) rest
  end.

Definition process_batch (uploads : list upload) : result state :=
  loop (len uploads) start 0 uploads.

(** An extraction failure: the API call raises, or the cleaned reply is
    not JSON.  The message is the one the user is shown. *)
Definition extraction_failure (u : upload) : option string :=
  match reply u with
  | inl msg => Some msg
  | inr text =>
      match json_loads (clean text) with
      | inl msg => Some msg
      | inr _ => None
      end
  end.

Definition extraction_fails (u : upload) : bool :=
  image_opens u && match extraction_failure u with Some _ => true | None => false end.

Definition table (c : result state) : option (list ResultRecord) :=
  option_map results (returned c).

End MainLoop.

End Batch.

(* ===================================================================== *)
(** ** Properties of the filter and of the selection *)
(* ===================================================================== *)

Module ScoreFacts.

Import Float Dec Score.

(** The conversion as a total function, for stating what a successful
    comprehension holds. *)
Definition float_or_zero (s : pyobj) : float :=
  match to_float s with
  | Return f => f
  | Raise _ => pos_zero
  end.


Lemma str_raises_small (z : Z) :
  Z.abs z < 2 ^ 1024 -> str_raises (PyInt z) = false.
Proof.
  intros H. cbn [str_raises]. apply Z.leb_gt.
  assert (B : 2 ^ 1024 <= int_str_bound) by (vm_compute; discriminate).
  lia.
Qed.

Lemma str_raises_keeps (s : pyobj) : str_raises s = true -> keeps s = true.
Proof.
  destruct s; try discriminate. intros _. unfold keeps.
  cbn [isinstance_int_float]. apply orb_true_r.
Qed.

Lemma comprehension_filter (scores : list pyobj) :
  comprehension scores = comprehension (filter keeps scores).
Proof.
  induction scores as [|s rest IH]; cbn [comprehension filter]; [reflexivity|].
  destruct (str_raises s) eqn:R.
  - rewrite (str_raises_keeps s R). cbn [comprehension]. now rewrite R.
  - destruct (keeps s) eqn:K; cbn [comprehension]; [|exact IH].
    now rewrite R, K, IH.
Qed.

Lemma comprehension_returns (scores : list pyobj) (valid : list float) :
  comprehension scores = Return valid ->
  valid = map float_or_zero (filter keeps scores).
Proof.
  revert valid.
  induction scores as [|s rest IH]; cbn [comprehension filter]; intros valid H.
  - now inversion H.
  - destruct (str_raises s); [discriminate|].
    destruct (keeps s); [|now apply IH].
    cbn [map]. unfold float_or_zero at 1.
    destruct (to_float s) as [f|e]; cbn [bind] in H; [|discriminate].
    destruct (comprehension rest) as [fs|e]; cbn [bind] in H; [|discriminate].
    inversion H. f_equal. now apply IH.
Qed.

Lemma comprehension_nothing_kept (scores : list pyobj) :
  filter keeps scores = [] -> comprehension scores = Return [].
Proof. intros H. rewrite comprehension_filter, H. reflexivity. Qed.

(** An element that the comprehension gets past: its text exists and, when
    the filter keeps it, it converts. *)
Definition converts (s : pyobj) : Prop :=
  str_raises s = false /\ (keeps s = true -> exists f, to_float s = Return f).

(** A comprehension returns exactly when it gets past every element. *)
Lemma comprehension_returns_iff (scores : list pyobj) :
  (exists valid, comprehension scores = Return valid) <-> Forall converts scores.
Proof.
  induction scores as [|s rest IH]; cbn [comprehension].
  - split; [constructor | now exists []].
  - destruct (str_raises s) eqn:R.
    { split; [intros [valid H]; discriminate|].
      intros H. inversion H as [|? ? [Hs _] _]; subst. congruence. }
    destruct (keeps s) eqn:K.
    + split.
      * intros [valid H]. destruct (to_float s) as [f|e] eqn:T; [|discriminate].
        cbn [bind] in H. destruct (comprehension rest) as [fs|e]; [|discriminate].
        constructor; [split; [exact R | now exists f]|]. apply IH. now exists fs.
      * intros H. inversion H as [|? ? [_ Hs] Hrest]; subst.
        destruct (Hs K) as [f ->]. apply IH in Hrest as [fs ->].
        now exists (f :: fs).
    + rewrite IH. split.
      * intros H. constructor; [|exact H].
        split; [exact R | intros K'; congruence].
      * intros H. now inversion H.
Qed.

(** *** Texts of ASCII digits *)

Definition codes (t : string) : list N := map N_of_ascii (list_ascii_of_string t).

Lemma ascii_digit_bounds (c : ascii) :
  is_ascii_digit c = true -> (48 <= N_of_ascii c <= 57)%N.
Proof.
  unfold is_ascii_digit. intros H. apply andb_prop in H as [L U].
  apply N.leb_le in L, U. lia.
Qed.

Lemma ascii_digit_decimal (c : ascii) :
  is_ascii_digit c = true ->
  Unicode.decimal (N_of_ascii c) = Some (N_of_ascii c - 48)%N.
Proof.
  intros H. pose proof (ascii_digit_bounds c H) as [L U].
  unfold Unicode.decimal, Unicode.decimal_digits. cbn [find].
  unfold Unicode.within at 1. cbn [fst snd].
  rewrite (proj2 (N.leb_le _ _) L), (proj2 (N.leb_le _ _) U). cbn [andb fst].
  f_equal. apply N.mod_small. lia.
Qed.

Lemma ascii_digit_is_digit (c : ascii) :
  is_ascii_digit c = true -> Unicode.is_digit (N_of_ascii c) = true.
Proof.
  intros H. pose proof (ascii_digit_bounds c H) as [L U].
  unfold Unicode.is_digit, Unicode.is_decimal, Unicode.decimal_digits.
  cbn [existsb]. unfold Unicode.within at 1. cbn [fst snd].
  now rewrite (proj2 (N.leb_le _ _) L), (proj2 (N.leb_le _ _) U).
Qed.

Lemma decode_ascii_digits (t : string) :
  all_ascii_digits t = true -> Unicode.decode t = Some (codes t).
Proof.
  induction t as [|c t IH]; cbn [all_ascii_digits]; intros H; [reflexivity|].
  apply andb_prop in H as [D H].
  pose proof (ascii_digit_bounds c D) as [L U].
  cbn [Unicode.decode].
  rewrite (proj2 (N.ltb_lt _ _)) by lia. now rewrite (IH H).
Qed.

Lemma decimal_value_ascii (t : string) (acc : Z) :
  all_ascii_digits t = true ->
  decimal_value acc (codes t) = Some (numeral_value acc t).
Proof.
  revert acc.
  induction t as [|c t IH]; cbn [all_ascii_digits]; intros acc H; [reflexivity|].
  apply andb_prop in H as [D H].
  pose proof (ascii_digit_bounds c D) as [L U].
  unfold codes. cbn [list_ascii_of_string map decimal_value numeral_value].
  rewrite (ascii_digit_decimal c D). fold (codes t).
  rewrite (IH _ H). do 2 f_equal. lia.
Qed.

Lemma forallb_codes_digit (t : string) :
  all_ascii_digits t = true -> forallb Unicode.is_digit (codes t) = true.
Proof.
  induction t as [|c t IH]; cbn [all_ascii_digits]; intros H; [reflexivity|].
  apply andb_prop in H as [D H]. unfold codes.
  cbn [list_ascii_of_string map forallb].
  rewrite (ascii_digit_is_digit c D). exact (IH H).
Qed.

Lemma isdigit_ascii (t : string) :
  t <> EmptyString -> all_ascii_digits t = true -> isdigit t = true.
Proof.
  intros N H. unfold isdigit. rewrite (decode_ascii_digits t H).
  pose proof (forallb_codes_digit t H) as F.
  destruct t as [|c t]; [congruence|]. exact F.
Qed.

Lemma float_of_str_ascii (t : string) :
  t <> EmptyString -> all_ascii_digits t = true ->
  float_of_str t = Return (of_Z (numeral_value 0 t)).
Proof.
  intros N H. unfold float_of_str. rewrite (decode_ascii_digits t H).
  pose proof (decimal_value_ascii t 0 H) as V.
  destruct t as [|c t]; [congruence|].
  unfold codes in *. cbn [list_ascii_of_string map] in *. now rewrite V.
Qed.

(** *** The sort *)

Definition descending : list float -> Prop :=
  Sorted (fun a b => ltb a b = false).

Lemma ltb_asym (a b : float) : ltb a b = true -> ltb b a = false.
Proof.
  unfold ltb, SFltb.
  destruct a as [sa|sa| |sa ma ea], b as [sb|sb| |sb mb eb]; simpl;
    try discriminate; try reflexivity;
    try (destruct sa; simpl; try discriminate; reflexivity);
    try (destruct sb; simpl; try discriminate; reflexivity);
    try (destruct sa, sb; simpl; try discriminate; reflexivity).
  destruct sa, sb; try discriminate; try reflexivity.
  - rewrite (Z.compare_antisym ea eb).
    destruct (ea ?= eb); simpl; try discriminate; try reflexivity.
    change (Pos.compare_cont Eq mb ma) with (Pos.compare mb ma).
    change (Pos.compare_cont Eq ma mb) with (Pos.compare ma mb).
    rewrite (Pos.compare_antisym ma mb).
    destruct (ma ?= mb)%positive; simpl; try discriminate; reflexivity.
  - rewrite (Z.compare_antisym ea eb).
    destruct (ea ?= eb); simpl; try discriminate; try reflexivity.
    change (Pos.compare_cont Eq mb ma) with (Pos.compare mb ma).
    change (Pos.compare_cont Eq ma mb) with (Pos.compare ma mb).
    rewrite (Pos.compare_antisym ma mb).
    destruct (ma ?= mb)%positive; simpl; try discriminate; reflexivity.
Qed.

Lemma insert_desc_perm (x : float) (l : list float) :
  Permutation (insert_desc x l) (x :: l).
Proof.
  induction l as [|y l IH]; simpl; [reflexivity|].
  destruct (ltb x y); [|reflexivity].
  rewrite IH. apply perm_swap.
Qed.

Lemma stable_descending_perm (l : list float) :
  Permutation (stable_descending l) l.
Proof.
  induction l as [|x l IH]; simpl; [reflexivity|].
  rewrite insert_desc_perm. now constructor.
Qed.

Lemma insert_desc_descending (x : float) (l : list float) :
  descending l -> descending (insert_desc x l).
Proof.
  unfold descending. induction l as [|y l IH]; simpl; intros H.
  - repeat constructor.
  - destruct (ltb x y) eqn:L.
    + inversion H as [|? ? Hl Hy]; subst.
      constructor; [now apply IH|].
      destruct l as [|z l]; simpl.
      * constructor. now apply ltb_asym.
      * destruct (ltb x z); constructor.
        -- now inversion Hy.
        -- now apply ltb_asym.
    + constructor; [exact H | now constructor].
Qed.

Lemma stable_descending_descending (l : list float) :
  descending (stable_descending l).
Proof.
  induction l as [|x l IH]; simpl; [constructor|].
  now apply insert_desc_descending.
Qed.

(** The sort of a short list moves elements and nothing else, whatever the
    comparisons answer. *)
Lemma run_from_app {A : Type} (ok : A -> A -> bool) (prev : A) (l : list A) :
  fst (run_from ok prev l) ++ snd (run_from ok prev l) = l.
Proof.
  revert prev. induction l as [|x l IH]; intros prev; cbn [run_from]; [reflexivity|].
  destruct (ok prev x); [|reflexivity].
  specialize (IH x). destruct (run_from ok x l) as [run rest].
  cbn [fst snd app] in *. now rewrite IH.
Qed.

Lemma count_run_perm {A : Type} (lt : A -> A -> bool) (l : list A) :
  Permutation (fst (count_run lt l) ++ snd (count_run lt l)) l.
Proof.
  destruct l as [|a [|b l]]; cbn [count_run fst snd]; try (now rewrite app_nil_r).
  destruct (lt b a).
  - pose proof (run_from_app (fun p x => lt x p) b l) as E.
    destruct (run_from _ b l) as [run rest]. cbn [fst snd] in *.
    rewrite <- E.
    change (a :: b :: run ++ rest) with ((a :: b :: run) ++ rest).
    apply Permutation_app_tail. symmetry. apply Permutation_rev.
  - pose proof (run_from_app (fun p x => negb (lt x p)) b l) as E.
    destruct (run_from _ b l) as [run rest]. cbn [fst snd] in *.
    cbn [app]. now rewrite E.
Qed.

Lemma insert_sorted_perm {A : Type} (lt : A -> A -> bool) (run : list A) (x : A) :
  Permutation (insert_sorted lt run x) (x :: run).
Proof.
  unfold insert_sorted. set (i := bisect lt _ x run _ _).
  rewrite <- (firstn_skipn i run) at 3.
  symmetry. apply Permutation_middle.
Qed.

Lemma fold_insert_sorted_perm {A : Type} (lt : A -> A -> bool) (rest run : list A) :
  Permutation (fold_left (insert_sorted lt) rest run) (run ++ rest).
Proof.
  revert run. induction rest as [|x rest IH]; intros run; cbn [fold_left].
  - now rewrite app_nil_r.
  - rewrite IH, insert_sorted_perm.
    change (x :: run) with ([x] ++ run).
    rewrite (Permutation_app_comm [x] run), <- app_assoc. reflexivity.
Qed.

Lemma short_sort_perm {A : Type} (lt : A -> A -> bool) (l : list A) :
  Permutation (short_sort lt l) l.
Proof.
  unfold short_sort. pose proof (count_run_perm lt l) as P.
  destruct (count_run lt l) as [run rest]. cbn [fst snd] in P.
  now rewrite fold_insert_sorted_perm.
Qed.

Lemma no_nan_Forall (l : list float) :
  no_nan l = true <-> Forall (fun f => is_nan f = false) l.
Proof.
  unfold no_nan. rewrite forallb_forall, Forall_forall.
  split; intros H f I; specialize (H f I); now destruct (is_nan f).
Qed.

(** Without NaN the sort is the stable descending order. *)
Lemma sort_reverse_stable (l : list float) :
  Forall (fun f => is_nan f = false) l -> sort_reverse l = stable_descending l.
Proof.
  intros F. unfold sort_reverse. now rewrite (proj2 (no_nan_Forall l) F).
Qed.

Lemma sort_reverse_perm (l : list float) : Permutation (sort_reverse l) l.
Proof.
  unfold sort_reverse. destruct (no_nan l); [apply stable_descending_perm|].
  rewrite <- Permutation_rev, short_sort_perm. symmetry. apply Permutation_rev.
Qed.

Lemma sort_reverse_length (l : list float) :
  List.length (sort_reverse l) = List.length l.
Proof. apply Permutation_length, sort_reverse_perm. Qed.

(** *** The slice *)

Lemma slice_to_firstn {A : Type} (l : list A) (n : Z) :
  0 <= n -> slice_to l n = firstn (Z.to_nat n) l.
Proof. intros H. unfold slice_to. now rewrite (proj2 (Z.leb_le 0 n) H). Qed.

Lemma slice_to_length {A : Type} (l : list A) (n : Z) :
  0 <= n -> len (slice_to l n) = Z.min n (len l).
Proof.
  intros H. rewrite slice_to_firstn by exact H. unfold len.
  rewrite length_firstn. lia.
Qed.

Lemma slice_to_all {A : Type} (l : list A) (n : Z) :
  len l <= n -> slice_to l n = l.
Proof.
  intros H. unfold len in H. rewrite slice_to_firstn by lia.
  apply firstn_all2. lia.
Qed.

End ScoreFacts.

(* ===================================================================== *)
(** ** Facts about binary64 rounding *)
(* ===================================================================== *)

Module FloatFacts.

Import Float.

Lemma fexp_eq (x : Z) : fexp prec emax x = Z.max (x - 53) (-1074).
Proof. reflexivity. Qed.

Lemma digits2_size (p : positive) : digits2_pos p = Pos.size p.
Proof. induction p; simpl; congruence. Qed.

Lemma digits_bounds (p : positive) :
  2 ^ (Z.pos (digits2_pos p) - 1) <= Z.pos p < 2 ^ Z.pos (digits2_pos p).
Proof.
  rewrite digits2_size. split.
  - pose proof (Pos.size_le p) as H.
    apply Pos2Z.pos_le_pos in H. rewrite Pos2Z.inj_pow in H.
    assert (E : 2 ^ Z.pos (Pos.size p) = 2 * 2 ^ (Z.pos (Pos.size p) - 1)).
    { rewrite <- Z.pow_succ_r by lia. f_equal. lia. }
    change (Z.pos 2) with 2 in H. rewrite (Pos2Z.inj_xO p) in H. lia.
  - pose proof (Pos.size_gt p) as H.
    apply Pos2Z.pos_lt_pos in H. now rewrite Pos2Z.inj_pow in H.
Qed.

Lemma Zdigits2_nonneg (m : Z) : 0 <= Zdigits2 m.
Proof. destruct m; simpl; lia. Qed.

Lemma Zdigits2_bound (m : Z) : 0 <= m -> m < 2 ^ Zdigits2 m.
Proof.
  destruct m as [|p|p]; simpl; intros H; try lia.
  apply digits_bounds.
Qed.

Lemma Zdigits2_lower (m : Z) : 0 < m -> 2 ^ (Zdigits2 m - 1) <= m.
Proof.
  destruct m as [|p|p]; simpl; intros H; try lia.
  apply digits_bounds.
Qed.

(** *** Shifting right with round and sticky bits *)

Definition inexact (r : shr_record) : bool := shr_r r || shr_s r.

(** [r'] is [r] shifted right by [n] bits. *)
Definition shifted (n : Z) (r r' : shr_record) : Prop :=
  shr_m r' = shr_m r / 2 ^ n /\
  inexact r' = negb (shr_m r mod 2 ^ n =? 0) || inexact r.

Lemma shifted_0 (r : shr_record) : shifted 0 r r.
Proof.
  split; simpl.
  - now rewrite Z.div_1_r.
  - now rewrite Z.mod_1_r.
Qed.

Lemma shifted_1 (r : shr_record) : 0 <= shr_m r -> shifted 1 r (shr_1 r).
Proof.
  destruct r as [m rb sb]. simpl. intros H.
  unfold shifted, inexact.
  change (2 ^ 1) with 2.
  destruct m as [|[p|p|]|p]; simpl shr_1; simpl shr_m; simpl shr_r; simpl shr_s;
    try lia.
  - split; reflexivity.
  - split.
    + rewrite Pos2Z.inj_xI. apply Z.div_unique with (r := 1); lia.
    + rewrite Pos2Z.inj_xI.
      replace ((2 * Z.pos p + 1) mod 2) with 1
        by (apply Z.mod_unique with (q := Z.pos p); lia).
      reflexivity.
  - split.
    + rewrite Pos2Z.inj_xO. apply Z.div_unique with (r := 0); lia.
    + rewrite Pos2Z.inj_xO.
      replace ((2 * Z.pos p) mod 2) with 0
        by (apply Z.mod_unique with (q := Z.pos p); lia).
      simpl. now destruct rb, sb.
  - split; reflexivity.
Qed.

Lemma mod_mul_zero (m a b : Z) :
  0 < a -> 0 < b ->
  (m mod (a * b) =? 0) = (m mod a =? 0) && ((m / a) mod b =? 0).
Proof.
  intros Ha Hb. rewrite Z.rem_mul_r by lia.
  pose proof (Z.mod_pos_bound m a Ha).
  pose proof (Z.mod_pos_bound (m / a) b Hb).
  destruct (Z.eqb_spec (m mod a) 0), (Z.eqb_spec ((m / a) mod b) 0); simpl;
    apply Z.eqb_eq || apply Z.eqb_neq; nia.
Qed.

Lemma shifted_compose (a b : Z) (r r' r'' : shr_record) :
  0 <= a -> 0 <= b ->
  shifted a r r' -> shifted b r' r'' -> shifted (a + b) r r''.
Proof.
  intros Ha Hb [Hm Hi] [Hm' Hi'].
  assert (0 < 2 ^ a) by (apply Z.pow_pos_nonneg; lia).
  assert (0 < 2 ^ b) by (apply Z.pow_pos_nonneg; lia).
  split.
  - rewrite Hm', Hm, Z.pow_add_r by lia. now rewrite Z.div_div by lia.
  - rewrite Hi', Hi, Hm, Z.pow_add_r by lia.
    rewrite mod_mul_zero by lia.
    destruct (shr_m r mod 2 ^ a =? 0), (shr_m r / 2 ^ a mod 2 ^ b =? 0),
      (inexact r); reflexivity.
Qed.

Lemma shifted_nonneg (n : Z) (r r' : shr_record) :
  shifted n r r' -> 0 <= n -> 0 <= shr_m r -> 0 <= shr_m r'.
Proof.
  intros [Hm _] Hn H. rewrite Hm. apply Z.div_pos; [lia|].
  apply Z.pow_pos_nonneg; lia.
Qed.

Lemma iter_shr_1 (p : positive) (r : shr_record) :
  0 <= shr_m r -> shifted (Z.pos p) r (iter_pos shr_1 p r).
Proof.
  revert r. induction p as [p IH|p IH|]; intros r H; simpl iter_pos.
  - rewrite Pos2Z.inj_xI.
    replace (2 * Z.pos p + 1) with (1 + (Z.pos p + Z.pos p)) by lia.
    pose proof (shifted_1 r H) as S1.
    assert (H1 : 0 <= shr_m (shr_1 r)) by (apply (shifted_nonneg _ _ _ S1); lia).
    pose proof (IH _ H1) as S2.
    assert (H2 : 0 <= shr_m (iter_pos shr_1 p (shr_1 r)))
      by (apply (shifted_nonneg _ _ _ S2); lia).
    pose proof (IH _ H2) as S3.
    eapply shifted_compose; [lia | lia | exact S1 |].
    eapply shifted_compose; [lia | lia | exact S2 | exact S3].
  - rewrite Pos2Z.inj_xO.
    replace (2 * Z.pos p) with (Z.pos p + Z.pos p) by lia.
    pose proof (IH _ H) as S1.
    assert (H1 : 0 <= shr_m (iter_pos shr_1 p r))
      by (apply (shifted_nonneg _ _ _ S1); lia).
    pose proof (IH _ H1) as S2.
    eapply shifted_compose; [lia | lia | exact S1 | exact S2].
  - now apply shifted_1.
Qed.

Lemma shr_spec (r : shr_record) (e n : Z) :
  0 <= shr_m r ->
  shifted (Z.max 0 n) r (fst (shr r e n)) /\ snd (shr r e n) = e + Z.max 0 n.
Proof.
  intros H. destruct n as [|p|p]; simpl.
  - split; [apply shifted_0 | lia].
  - split; [now apply iter_shr_1 | reflexivity].
  - split; [apply shifted_0 | lia].
Qed.

(** *** Shape of a rounding *)

Definition is_exact (l : location) : bool :=
  match l with loc_Exact => true | _ => false end.

(** Number of bits dropped to bring [m * 2^e] to its canonical exponent. *)
Definition shift_amount (m e : Z) : Z :=
  Z.max 0 (fexp prec emax (Zdigits2 m + e) - e).

(** Last step of [binary_round_aux]. *)
Definition finish (s : bool) (m e : Z) : float :=
  match m with
  | Z0 => S754_zero s
  | Zpos p => if e <=? emax - prec then S754_finite s p e else S754_infinity s
  | Zneg _ => S754_nan
  end.

Lemma record_of_loc (m : Z) (l : location) :
  shr_m (shr_record_of_loc m l) = m /\
  inexact (shr_record_of_loc m l) = negb (is_exact l).
Proof. destruct l as [|[ | | ]]; split; reflexivity. Qed.

Lemma shr_fexp_spec (m e : Z) (l : location) :
  0 <= m ->
  let n := shift_amount m e in
  shr_m (fst (shr_fexp prec emax m e l)) = m / 2 ^ n /\
  inexact (fst (shr_fexp prec emax m e l))
    = negb (m mod 2 ^ n =? 0) || negb (is_exact l) /\
  snd (shr_fexp prec emax m e l) = e + n.
Proof.
  intros H n. unfold shr_fexp.
  destruct (record_of_loc m l) as [Rm Ri].
  destruct (shr_spec (shr_record_of_loc m l) e
              (fexp prec emax (Zdigits2 m + e) - e)) as [[Sm Si] Se];
    [rewrite Rm; exact H|].
  fold (shift_amount m e) in Sm, Si, Se. fold n in Sm, Si, Se.
  rewrite Rm in Sm, Si. rewrite Ri in Si. auto.
Qed.

Lemma round_nearest_even_spec (r : shr_record) :
  let m1 := round_nearest_even (shr_m r) (loc_of_shr_record r) in
  shr_m r <= m1 <= shr_m r + 1 /\ (inexact r = false -> m1 = shr_m r).
Proof.
  destruct r as [m [|] [|]]; unfold inexact; simpl;
    try destruct (Z.even m); split; try lia; try discriminate; auto.
Qed.

Lemma round_aux_shape (s : bool) (m e : Z) (l : location) :
  0 <= m ->
  let n1 := shift_amount m e in
  let e1 := e + n1 in
  exists m1,
    m / 2 ^ n1 <= m1 <= m / 2 ^ n1 + 1 /\
    (m mod 2 ^ n1 = 0 -> l = loc_Exact -> m1 = m / 2 ^ n1) /\
    binary_round_aux prec emax s m e l
      = finish s (m1 / 2 ^ shift_amount m1 e1) (e1 + shift_amount m1 e1).
Proof.
  intros H n1 e1.
  destruct (shr_fexp_spec m e l H) as (Sm & Si & Se).
  fold n1 in Sm, Si, Se. fold e1 in Se.
  unfold binary_round_aux.
  destruct (shr_fexp prec emax m e l) as [r1 e1'] eqn:E1. simpl in Sm, Si, Se.
  subst e1'.
  destruct (round_nearest_even_spec r1) as [Hb Hx].
  set (m1 := round_nearest_even (shr_m r1) (loc_of_shr_record r1)) in *.
  assert (H1 : 0 <= m1).
  { rewrite Sm in Hb. assert (0 <= m / 2 ^ n1); [|lia].
    apply Z.div_pos; [lia|]. apply Z.pow_pos_nonneg; [lia|]. unfold n1, shift_amount. lia. }
  destruct (shr_fexp_spec m1 e1 loc_Exact H1) as (Tm & _ & Te).
  destruct (shr_fexp prec emax m1 e1 loc_Exact) as [r2 e2] eqn:E2.
  simpl in Tm, Te. subst e2.
  exists m1. split; [now rewrite <- Sm|]. split.
  - intros Hz Hl. rewrite <- Sm. apply Hx. rewrite Si, Hz, Hl. reflexivity.
  - rewrite Tm. reflexivity.
Qed.

(** *** What a rounding can return *)

Lemma pow2_pos (a : Z) : 0 <= a -> 0 < 2 ^ a.
Proof. intros H. apply Z.pow_pos_nonneg; lia. Qed.

Lemma pow2_le (a b : Z) : 0 <= a <= b -> 2 ^ a <= 2 ^ b.
Proof. intros H. apply Z.pow_le_mono_r; lia. Qed.

Lemma shift_amount_nonneg (m e : Z) : 0 <= shift_amount m e.
Proof. unfold shift_amount. lia. Qed.

Lemma shift_exponent (m e : Z) : -1074 <= e + shift_amount m e.
Proof. unfold shift_amount. rewrite fexp_eq. lia. Qed.

Lemma shift_mantissa (m e : Z) :
  0 <= m -> 0 <= m / 2 ^ shift_amount m e < 2 ^ 53.
Proof.
  intros H. pose proof (shift_amount_nonneg m e) as Hn.
  pose proof (pow2_pos _ Hn) as Hp.
  split; [apply Z.div_pos; lia|].
  apply Z.div_lt_upper_bound; [exact Hp|].
  rewrite <- Z.pow_add_r by lia.
  pose proof (Zdigits2_bound m H) as Hd.
  pose proof (Zdigits2_nonneg m) as Hd0.
  assert (2 ^ Zdigits2 m <= 2 ^ (shift_amount m e + 53)); [|lia].
  apply pow2_le. unfold shift_amount. rewrite fexp_eq. lia.
Qed.

Lemma finish_cases (s : bool) (m e : Z) :
  0 <= m ->
  (m = 0 /\ finish s m e = S754_zero s) \/
  (0 < m /\ e <= 971 /\ finish s m e = S754_finite s (Z.to_pos m) e) \/
  (0 < m /\ 971 < e /\ finish s m e = S754_infinity s).
Proof.
  intros H. destruct m as [|p|p]; simpl; [auto | | lia].
  right. change (emax - prec) with 971.
  destruct (Z.leb_spec e 971); [left | right]; repeat split; auto; lia.
Qed.

(** A rounding of a non-negative mantissa never is a NaN, keeps the sign
    it is given, and a finite result has at most 53 bits and an exponent
    in the range of doubles. *)
Lemma round_aux_result (s : bool) (m e : Z) (l : location) :
  0 <= m ->
  match binary_round_aux prec emax s m e l with
  | S754_zero s' => s' = s
  | S754_infinity s' => s' = s
  | S754_nan => False
  | S754_finite s' m' e' => s' = s /\ Z.pos m' < 2 ^ 53 /\ -1074 <= e' <= 971
  end.
Proof.
  intros H. destruct (round_aux_shape s m e l H) as (m1 & Hm1 & _ & ->).
  set (e1 := e + shift_amount m e).
  assert (H1 : 0 <= m1).
  { pose proof (shift_mantissa m e H). lia. }
  pose proof (shift_mantissa m1 e1 H1) as Hs.
  pose proof (shift_exponent m1 e1) as He.
  destruct (finish_cases s _ (e1 + shift_amount m1 e1) (proj1 Hs))
    as [[_ ->]|[(Hp & Hle & ->)|(_ & _ & ->)]]; auto.
  rewrite Z2Pos.id by lia. repeat split; lia.
Qed.

(** *** Division *)

Lemma div_core_spec (m1 : positive) (e1 : Z) (m2 : positive) (e2 : Z) :
  let e' := Z.min (fexp prec emax (Zdigits2 (Z.pos m1) + e1 - (Zdigits2 (Z.pos m2) + e2)))
                  (e1 - e2) in
  let m' := Z.pos m1 * 2 ^ (e1 - e2 - e') in
  SFdiv_core_binary prec emax (Z.pos m1) e1 (Z.pos m2) e2
    = (m' / Z.pos m2, e', new_location (Z.pos m2) (m' mod Z.pos m2)).
Proof.
  intros e' m'. unfold SFdiv_core_binary. fold e'.
  assert (Hs : 0 <= e1 - e2 - e') by (unfold e'; lia).
  assert (Hm : match e1 - e2 - e' with
               | Z.pos _ => Z.shiftl (Z.pos m1) (e1 - e2 - e')
               | 0 => Z.pos m1
               | Z.neg _ => 0
               end = m').
  { unfold m'. destruct (e1 - e2 - e') as [|p|p] eqn:E.
    - rewrite Z.pow_0_r. lia.
    - now rewrite Z.shiftl_mul_pow2 by lia.
    - lia. }
  rewrite Hm. unfold Z.div, Z.modulo.
  now destruct (Z.div_eucl m' (Z.pos m2)).
Qed.

(** A finite quotient has at most 53 bits and an exponent in range. *)
Lemma div_finite_bounded (x y : float) (s : bool) (m : positive) (e : Z) :
  div x y = S754_finite s m e -> Z.pos m < 2 ^ 53 /\ -1074 <= e <= 971.
Proof.
  unfold div.
  destruct x as [sx|sx| |sx mx ex], y as [sy|sy| |sy my ey]; simpl; try discriminate.
  pose proof (div_core_spec mx ex my ey) as C. cbv zeta in C.
  change (SFdiv_core_binary 53 1024) with (SFdiv_core_binary prec emax).
  rewrite C. intros H.
  match type of H with
  | binary_round_aux _ _ ?sg ?q ?e0 ?l = _ =>
      assert (Hq : 0 <= q);
      [| pose proof (round_aux_result sg q e0 l Hq) as R;
         change (binary_round_aux 53 1024) with (binary_round_aux prec emax) in H;
         rewrite H in R; tauto ]
  end.
  apply Z.div_pos; [|lia].
  apply Z.mul_nonneg_nonneg; [lia|]. apply Z.pow_nonneg. lia.
Qed.

End FloatFacts.

(* ===================================================================== *)
(** ** Facts about the decimal rounding step *)
(* ===================================================================== *)

Module DecFacts.

Import Float Dec Score FloatFacts.

(** The integer nearest to [m * 2^e], halves going up. *)
Definition nearest_half_up (m : positive) (e : Z) : Z :=
  if 0 <=? e then Z.pos m * 2 ^ e
  else (2 * Z.pos m + 2 ^ (- e)) / 2 ^ (1 - e).

Lemma lowest_terms_spec (m : positive) (k : nat) :
  let '(n, k') := lowest_terms m k in
  (k' <= k)%nat /\ Z.pos m = Z.pos n * 2 ^ (Z.of_nat k - Z.of_nat k').
Proof.
  revert k. induction m as [m IH|m IH|]; intros k; cbn [lowest_terms];
    try (split; [lia | rewrite Z.sub_diag, Z.pow_0_r; lia]).
  destruct k as [|k].
  - split; [lia | rewrite Z.sub_diag, Z.pow_0_r; lia].
  - specialize (IH k). destruct (lowest_terms m k) as [n k'].
    destruct IH as [Hk Hm]. split; [lia|].
    rewrite Pos2Z.inj_xO, Hm.
    replace (Z.of_nat (S k) - Z.of_nat k') with (Z.succ (Z.of_nat k - Z.of_nat k')) by lia.
    rewrite Z.pow_succ_r by lia. lia.
Qed.

Lemma pow10_split (k : Z) : 0 <= k -> 10 ^ k = 2 ^ k * 5 ^ k.
Proof. intros H. change 10 with (2 * 5). apply Z.pow_mul_l. Qed.

(** Dropping [k] decimal digits of [n * 5^k] with ROUND_HALF_UP is rounding
    [n / 2^k] to the nearest integer, halves up. *)
Lemma rescale0_half_up_spec (n k : Z) :
  0 < n -> 0 <= k ->
  rescale0_half_up (n * 5 ^ k) (- k) = (2 * n + 2 ^ k) / 2 ^ (k + 1).
Proof.
  intros Hn Hk. unfold rescale0_half_up.
  assert (P2 : 0 < 2 ^ k) by now apply pow2_pos.
  assert (P5 : 0 < 5 ^ k) by (apply Z.pow_pos_nonneg; lia).
  destruct (Z.leb_spec 0 (- k)) as [H0|H0].
  - assert (k = 0) by lia. subst k.
    change (- 0) with 0. change (5 ^ 0) with 1. change (10 ^ 0) with 1.
    change (2 ^ 0) with 1. change (2 ^ (0 + 1)) with 2.
    rewrite !Z.mul_1_r. apply Z.div_unique with (r := 1); lia.
  - rewrite Z.opp_involutive.
    rewrite (pow10_split k) by lia.
    rewrite Z.div_mul_cancel_r by lia.
    rewrite Z.mul_mod_distr_r by lia.
    replace (- - k - 1) with (k - 1) by lia.
    rewrite (pow10_split (k - 1)) by lia.
    assert (E5 : 5 ^ k = 5 * 5 ^ (k - 1)).
    { rewrite <- Z.pow_succ_r by lia. f_equal. lia. }
    assert (E2 : 2 ^ k = 2 * 2 ^ (k - 1)).
    { rewrite <- Z.pow_succ_r by lia. f_equal. lia. }
    assert (E2' : 2 ^ (k + 1) = 2 * 2 ^ k).
    { rewrite <- Z.pow_succ_r by lia. f_equal. }
    pose proof (Z.div_mod n (2 ^ k) ltac:(lia)) as Hdm.
    pose proof (Z.mod_pos_bound n (2 ^ k) P2) as Hr.
    set (q := n / 2 ^ k) in *. set (r := n mod 2 ^ k) in *.
    assert (P5' : 0 < 5 ^ (k - 1)) by (apply Z.pow_pos_nonneg; lia).
    destruct (Z.leb_spec (5 * (2 ^ (k - 1) * 5 ^ (k - 1))) (r * 5 ^ k)) as [Hge|Hlt].
    + assert (2 ^ (k - 1) <= r) by nia.
      apply Z.div_unique with (r := 2 * r - 2 ^ k); nia.
    + assert (r < 2 ^ (k - 1)) by nia.
      apply Z.div_unique with (r := 2 * r + 2 ^ k); nia.
Qed.

Lemma nearest_half_up_lower (m : positive) (e : Z) :
  0 <= nearest_half_up m e.
Proof.
  unfold nearest_half_up. destruct (0 <=? e) eqn:E.
  - apply Z.leb_le in E. pose proof (pow2_pos e E). lia.
  - apply Z.leb_gt in E. apply Z.div_pos.
    + pose proof (pow2_pos (- e) ltac:(lia)). lia.
    + apply pow2_pos. lia.
Qed.

(** The three library calls of lines 80-82 on a finite double. *)
Lemma round_half_up_int_finite (s : bool) (m : positive) (e : Z) :
  round_half_up_int (S754_finite s m e) =
    let r := nearest_half_up m e in
    if 10 ^ 28 <=? r then Raise InvalidOperation else Return (cond_Zopp s r).
Proof.
  unfold round_half_up_int, from_float, nearest_half_up.
  destruct (Z.leb_spec 0 e) as [He|He].
  - assert (P : 0 < 2 ^ e) by now apply pow2_pos.
    unfold round0. change (context_prec - 0) with 28. change context_prec with 28.
    destruct (Z.eqb_spec (Z.pos m * 2 ^ e) 0) as [Hz|_]; [nia|].
    cbv zeta. unfold rescale0_half_up.
    change (0 <=? 0) with true. cbv iota.
    change (10 ^ 0) with 1. rewrite Z.mul_1_r.
    destruct (10 ^ 28 <=? Z.pos m * 2 ^ e); simpl; [reflexivity|].
    now rewrite Z.mul_1_r.
  - pose proof (lowest_terms_spec m (Z.to_nat (- e))) as L.
    destruct (lowest_terms m (Z.to_nat (- e))) as [n k'].
    destruct L as [Lk Lm]. rewrite Z2Nat.id in Lm by lia.
    set (k := Z.of_nat k') in *.
    set (j := - e - k) in *.
    assert (Hk : 0 <= k) by (unfold k; lia).
    assert (Hj : 0 <= j) by (unfold j, k; lia).
    assert (P2 : 0 < 2 ^ k) by now apply pow2_pos.
    assert (Pj : 0 < 2 ^ j) by now apply pow2_pos.
    assert (P5 : 0 < 5 ^ k) by (apply Z.pow_pos_nonneg; lia).
    assert (R : (2 * Z.pos m + 2 ^ (- e)) / 2 ^ (1 - e)
                = (2 * Z.pos n + 2 ^ k) / 2 ^ (k + 1)).
    { replace (- e) with (k + j) by (unfold j; lia).
      replace (1 - e) with ((k + 1) + j) by (unfold j; lia).
      rewrite !Z.pow_add_r by lia. rewrite Lm.
      replace (2 * (Z.pos n * 2 ^ j) + 2 ^ k * 2 ^ j)
        with ((2 * Z.pos n + 2 ^ k) * 2 ^ j) by ring.
      apply Z.div_mul_cancel_r; [|lia].
      pose proof (pow2_pos 1 ltac:(lia)). nia. }
    rewrite R. clear R.
    unfold round0. change context_prec with 28.
    destruct (Z.eqb_spec (Z.pos n * 5 ^ k) 0) as [Hz|_]; [nia|].
    cbv zeta. rewrite rescale0_half_up_spec by lia.
    replace (28 - - k) with (28 + k) by lia.
    rewrite Z.pow_add_r by lia. rewrite (pow10_split k) by lia.
    assert (E2' : 2 ^ (k + 1) = 2 * 2 ^ k).
    { rewrite <- Z.pow_succ_r by lia. f_equal. }
    set (r := (2 * Z.pos n + 2 ^ k) / 2 ^ (k + 1)).
    assert (Hr : 2 ^ (k + 1) * r <= 2 * Z.pos n + 2 ^ k < 2 ^ (k + 1) * (r + 1)).
    { unfold r. pose proof (Z.div_mod (2 * Z.pos n + 2 ^ k) (2 ^ (k + 1)) ltac:(lia)).
      pose proof (Z.mod_pos_bound (2 * Z.pos n + 2 ^ k) (2 ^ (k + 1)) ltac:(lia)). lia. }
    destruct (Z.leb_spec (10 ^ 28 * (2 ^ k * 5 ^ k)) (Z.pos n * 5 ^ k)) as [Hbig|Hsmall].
    + assert (10 ^ 28 * 2 ^ k <= Z.pos n) by nia.
      assert (10 ^ 28 <= r) by nia.
      destruct (Z.leb_spec (10 ^ 28) r); [reflexivity | lia].
    + destruct (10 ^ 28 <=? r); simpl; [reflexivity|].
      now rewrite Z.mul_1_r.
Qed.

Lemma round_half_up_int_zero (s : bool) :
  round_half_up_int (S754_zero s) = Return 0.
Proof. now destruct s. Qed.

End DecFacts.

(* ===================================================================== *)
(** ** The specification's reading of the score rule *)
(* ===================================================================== *)

Module ScoreSpec.

Import Float Dec Score.





(** Rounding [n / d] (with [0 < d]) to the nearest integer, halves away
    from zero. *)
Definition half_away (n d : Z) : Z :=
  Z.sgn n * ((2 * Z.abs n + d) / (2 * d)).

(** The mean of the selected doubles as an exact quantity, rounded: the
    sum of the exact values over the count. *)
Definition exact_sum_units (top_scores : list float) : Z :=
  fold_right Z.add 0 (map units top_scores).

Definition exact_final_score (top_scores : list float) : Z :=
  half_away (exact_sum_units top_scores) (len top_scores * unit_scale).

(** The mean as the code computes it (line 74), given that the selection
    is not empty. *)
Definition selected_mean (valid_scores : list float) (top_n : Z) : float :=
  let top_scores := top_scores_of valid_scores top_n in
  div (sum top_scores) (of_Z (len top_scores)).

Definition is_finite (f : float) : bool :=
  match f with
  | S754_zero _ | S754_finite _ _ _ => true
  | _ => false
  end.

End ScoreSpec.

(* ===================================================================== *)
(** ** Order of doubles and independence from the input order *)
(* ===================================================================== *)

Module OrderFacts.

Import Float Dec Score ScoreFacts FloatFacts DecFacts ScoreSpec.

(** Doubles up to the sign of zero: [0.0 == -0.0] in every comparison. *)
Definition norm (f : float) : float :=
  match f with
  | S754_zero _ => S754_zero false
  | _ => f
  end.

(** A lexicographic key that orders the doubles other than NaN as
    [SFcompare] does. *)
Definition key (f : float) : Z * Z * Z :=
  match f with
  | S754_zero _ => (0, 0, 0)
  | S754_infinity true => (-2, 0, 0)
  | S754_infinity false => (2, 0, 0)
  | S754_nan => (3, 0, 0)
  | S754_finite false m e => (1, e, Z.pos m)
  | S754_finite true m e => (-1, - e, - Z.pos m)
  end.

Definition lex3 (a b : Z * Z * Z) : comparison :=
  let '(a1, a2, a3) := a in
  let '(b1, b2, b3) := b in
  match a1 ?= b1 with
  | Eq => match a2 ?= b2 with
          | Eq => a3 ?= b3
          | c => c
          end
  | c => c
  end.

Definition lex3_lt (a b : Z * Z * Z) : Prop :=
  let '(a1, a2, a3) := a in
  let '(b1, b2, b3) := b in
  a1 < b1 \/ (a1 = b1 /\ (a2 < b2 \/ (a2 = b2 /\ a3 < b3))).

Lemma lex3_lt_iff (a b : Z * Z * Z) : lex3 a b = Lt <-> lex3_lt a b.
Proof.
  destruct a as [[a1 a2] a3], b as [[b1 b2] b3]. unfold lex3, lex3_lt.
  destruct (Z.compare_spec a1 b1) as [E1|E1|E1],
           (Z.compare_spec a2 b2) as [E2|E2|E2],
           (Z.compare_spec a3 b3) as [E3|E3|E3];
    split; intros L; try discriminate; try reflexivity; try lia.
Qed.

Lemma compare_key (a b : float) :
  is_nan a = false -> is_nan b = false ->
  SFcompare a b = Some (lex3 (key a) (key b)).
Proof.
  destruct a as [sa|sa| |sa ma ea], b as [sb|sb| |sb mb eb]; try discriminate;
    intros _ _; try destruct sa; try destruct sb; try reflexivity.
  cbn [SFcompare key lex3]. rewrite Z.compare_opp.
  change (-1 ?= -1) with Eq. cbv iota.
  rewrite (Z.compare_antisym ea eb).
  destruct (ea ?= eb); cbn [CompOpp]; reflexivity.
Qed.

Lemma ltb_key (a b : float) :
  is_nan a = false -> is_nan b = false ->
  (ltb a b = true <-> lex3_lt (key a) (key b)).
Proof.
  intros Ha Hb. unfold ltb, SFltb. rewrite (compare_key a b Ha Hb).
  rewrite <- lex3_lt_iff. destruct (lex3 (key a) (key b)); split; congruence.
Qed.

Lemma ltb_false_key (a b : float) :
  is_nan a = false -> is_nan b = false ->
  (ltb a b = false <-> ~ lex3_lt (key a) (key b)).
Proof.
  intros Ha Hb. rewrite <- (ltb_key a b Ha Hb).
  destruct (ltb a b); split; congruence.
Qed.

Lemma key_norm (a : float) : key (norm a) = key a.
Proof. now destruct a. Qed.

Lemma is_nan_norm (a : float) : is_nan (norm a) = is_nan a.
Proof. now destruct a. Qed.

Lemma key_injective (a b : float) :
  is_nan a = false -> is_nan b = false -> key a = key b -> norm a = norm b.
Proof.
  destruct a as [sa|sa| |sa ma ea], b as [sb|sb| |sb mb eb]; try discriminate;
    intros _ _; try destruct sa; try destruct sb; cbn [key norm];
    intros K; inversion K; try reflexivity.
  f_equal; lia.
Qed.

(** An ordinary double: not a NaN, and with the sign of zero forgotten. *)
Definition ordinary (f : float) : Prop := is_nan f = false /\ norm f = f.

Lemma ltb_negative_transitive (x y z : float) :
  ordinary x -> ordinary y -> ordinary z ->
  ltb y z = true -> ltb x z = false -> ltb y x = true.
Proof.
  intros [Hx _] [Hy _] [Hz _].
  rewrite (ltb_key y z Hy Hz), (ltb_false_key x z Hx Hz), (ltb_key y x Hy Hx).
  destruct (key x) as [[x1 x2] x3], (key y) as [[y1 y2] y3], (key z) as [[z1 z2] z3].
  unfold lex3_lt. lia.
Qed.

Lemma ltb_incomparable_eq (x y : float) :
  ordinary x -> ordinary y ->
  ltb x y = false -> ltb y x = false -> x = y.
Proof.
  intros [Hx Nx] [Hy Ny].
  rewrite (ltb_false_key x y Hx Hy), (ltb_false_key y x Hy Hx).
  intros H1 H2. rewrite <- Nx, <- Ny. apply key_injective; auto.
  destruct (key x) as [[x1 x2] x3], (key y) as [[y1 y2] y3].
  unfold lex3_lt in *. repeat f_equal; lia.
Qed.

Lemma insert_desc_comm (x y : float) (l : list float) :
  ordinary x -> ordinary y -> Forall ordinary l ->
  insert_desc x (insert_desc y l) = insert_desc y (insert_desc x l).
Proof.
  intros Hx Hy. induction 1 as [|z l Hz Hl IH]; cbn [insert_desc].
  - destruct (ltb x y) eqn:XY, (ltb y x) eqn:YX; try reflexivity.
    + apply ltb_asym in XY. congruence.
    + now rewrite (ltb_incomparable_eq x y Hx Hy XY YX).
  - destruct (ltb y z) eqn:YZ, (ltb x z) eqn:XZ; cbn [insert_desc];
      rewrite ?YZ, ?XZ.
    + now rewrite IH.
    + now rewrite (ltb_negative_transitive x y z Hx Hy Hz YZ XZ).
    + now rewrite (ltb_negative_transitive y x z Hy Hx Hz XZ YZ).
    + destruct (ltb x y) eqn:XY, (ltb y x) eqn:YX; cbn [insert_desc];
        rewrite ?YZ, ?XZ; try reflexivity.
      * apply ltb_asym in XY. congruence.
      * now rewrite (ltb_incomparable_eq x y Hx Hy XY YX).
Qed.

Lemma ordinary_not_nan (l : list float) :
  Forall ordinary l -> Forall (fun f => is_nan f = false) l.
Proof. apply Forall_impl. now intros f [H _]. Qed.

Lemma stable_descending_permutation (l l' : list float) :
  Permutation l l' -> Forall ordinary l ->
  stable_descending l = stable_descending l'.
Proof.
  induction 1 as [|x l l' P IH|x y l|l l' l'' P1 IH1 P2 IH2]; intros F.
  - reflexivity.
  - cbn [stable_descending]. inversion F; subst. now rewrite IH.
  - cbn [stable_descending]. inversion F as [|? ? Hy F']; subst.
    inversion F' as [|? ? Hx F'']; subst.
    apply insert_desc_comm; auto.
    eapply Permutation_Forall; [|exact F'']. symmetry. apply stable_descending_perm.
  - rewrite IH1 by exact F. apply IH2. eapply Permutation_Forall; eauto.
Qed.

(** On ordinary doubles the sorted list depends on the multiset only. *)
Lemma sort_reverse_permutation (l l' : list float) :
  Permutation l l' -> Forall ordinary l -> sort_reverse l = sort_reverse l'.
Proof.
  intros P F.
  rewrite (sort_reverse_stable l) by now apply ordinary_not_nan.
  rewrite (sort_reverse_stable l').
  - now apply stable_descending_permutation.
  - apply ordinary_not_nan. eapply Permutation_Forall; eauto.
Qed.

(** *** Sorting, slicing, summing and rounding up to the sign of zero *)

Lemma ltb_norm (a b : float) : ltb (norm a) (norm b) = ltb a b.
Proof. destruct a as [sa|sa| |sa ma ea], b as [sb|sb| |sb mb eb]; reflexivity. Qed.

Lemma insert_desc_norm (x : float) (l : list float) :
  map norm (insert_desc x l) = insert_desc (norm x) (map norm l).
Proof.
  induction l as [|y l IH]; cbn [insert_desc map]; [reflexivity|].
  rewrite ltb_norm. destruct (ltb x y); cbn [map]; now rewrite ?IH.
Qed.

Lemma stable_descending_norm (l : list float) :
  map norm (stable_descending l) = stable_descending (map norm l).
Proof.
  induction l as [|x l IH]; cbn [stable_descending map]; [reflexivity|].
  now rewrite insert_desc_norm, IH.
Qed.

Lemma sort_reverse_norm (l : list float) :
  Forall (fun f => is_nan f = false) l ->
  map norm (sort_reverse l) = sort_reverse (map norm l).
Proof.
  intros F. rewrite (sort_reverse_stable l F), sort_reverse_stable.
  - apply stable_descending_norm.
  - rewrite Forall_map. eapply Forall_impl; [|exact F].
    intros f H. now rewrite is_nan_norm.
Qed.

Lemma slice_to_map {A B : Type} (f : A -> B) (l : list A) (n : Z) :
  map f (slice_to l n) = slice_to (map f l) n.
Proof.
  unfold slice_to. rewrite length_map.
  destruct (0 <=? n); now rewrite firstn_map.
Qed.

Lemma add_norm (a b : float) : norm (add a b) = norm (add (norm a) (norm b)).
Proof.
  destruct a as [sa|sa| |sa ma ea], b as [sb|sb| |sb mb eb]; try reflexivity.
  now destruct sa, sb.
Qed.

Lemma fold_add_norm (l l' : list float) (acc acc' : float) :
  map norm l = map norm l' -> norm acc = norm acc' ->
  norm (fold_left add l acc) = norm (fold_left add l' acc').
Proof.
  revert l' acc acc'. induction l as [|x l IH]; intros [|x' l'] acc acc' M A;
    try discriminate; cbn [fold_left]; [exact A|].
  cbn [map] in M. inversion M as [[Mx Ml]].
  apply IH; [exact Ml|].
  rewrite (add_norm acc x), (add_norm acc' x'). now rewrite A, Mx.
Qed.

Lemma div_norm (a k : float) : norm (div a k) = norm (div (norm a) k).
Proof. destruct a as [sa|sa| |sa ma ea], k as [sk|sk| |sk mk ek]; reflexivity. Qed.

Lemma round_half_up_int_norm (a : float) :
  round_half_up_int (norm a) = round_half_up_int a.
Proof. destruct a as [[|]|sa| |sa ma ea]; reflexivity. Qed.

Lemma selected_mean_norm (valid valid' : list float) (top_n : Z) :
  map norm (sort_reverse valid) = map norm (sort_reverse valid') ->
  round_half_up_int (selected_mean valid top_n)
    = round_half_up_int (selected_mean valid' top_n).
Proof.
  intros S. unfold selected_mean, top_scores_of.
  assert (T : map norm (slice_to (sort_reverse valid) top_n)
              = map norm (slice_to (sort_reverse valid') top_n))
    by (now rewrite !slice_to_map, S).
  assert (L : len (slice_to (sort_reverse valid) top_n)
              = len (slice_to (sort_reverse valid') top_n)).
  { unfold len. f_equal.
    rewrite <- (length_map norm (slice_to (sort_reverse valid) top_n)), T.
    apply length_map. }
  rewrite L.
  rewrite <- (round_half_up_int_norm (div (sum (slice_to (sort_reverse valid) top_n)) _)).
  rewrite <- (round_half_up_int_norm (div (sum (slice_to (sort_reverse valid') top_n)) _)).
  rewrite div_norm, (div_norm (sum (slice_to (sort_reverse valid') top_n))).
  unfold sum. now rewrite (fold_add_norm _ _ pos_zero pos_zero T eq_refl).
Qed.

(** *** Descending in the strong sense *)

(** Without NaN, "not less than" is transitive, so every element of the
    sorted list is at least as large as every later one. *)
Definition ge_order (a b : float) : Prop :=
  is_nan a = false /\ is_nan b = false /\ ltb a b = false.

Lemma ge_order_trans (a b c : float) :
  ge_order a b -> ge_order b c -> ge_order a c.
Proof.
  intros (Ha & Hb & L1) (_ & Hc & L2). repeat split; try assumption.
  apply (ltb_false_key a b Ha Hb) in L1. apply (ltb_false_key b c Hb Hc) in L2.
  apply (ltb_false_key a c Ha Hc).
  destruct (key a) as [[a1 a2] a3], (key b) as [[b1 b2] b3], (key c) as [[c1 c2] c3].
  unfold lex3_lt in *. lia.
Qed.

Lemma sort_reverse_strongly_descending (l : list float) :
  Forall (fun f => is_nan f = false) l ->
  StronglySorted (fun a b => ltb a b = false) (sort_reverse l).
Proof.
  intros F.
  assert (Fs : Forall (fun f => is_nan f = false) (sort_reverse l)).
  { eapply Permutation_Forall; [symmetry; apply sort_reverse_perm | exact F]. }
  assert (S : Sorted ge_order (sort_reverse l)).
  { pose proof (stable_descending_descending l) as D.
    rewrite <- (sort_reverse_stable l F) in D. unfold descending in D.
    induction D as [|a t Dt IH Hd]; [constructor|].
    inversion Fs as [|? ? Na Nt]; subst.
    constructor; [now apply IH|].
    destruct Hd as [|b t' Hab]; constructor.
    inversion Nt; subst. now repeat split. }
  apply Sorted_StronglySorted in S; [|exact ge_order_trans].
  clear Fs. induction S as [|a t St IH Ha]; [constructor|].
  constructor; [exact IH|].
  eapply Forall_impl; [|exact Ha]. now intros b (_ & _ & L).
Qed.

End OrderFacts.

(* ===================================================================== *)
(** ** Claims about [calculate_final_score] *)
(* ===================================================================== *)

Module ScoreClaims.

Import Float Dec Score ScoreFacts FloatFacts DecFacts ScoreSpec OrderFacts.


(** The function past its two guards. *)
Lemma calculate_final_score_nonempty (scores : list pyobj) (top_n : Z)
    (valid : list float) :
  comprehension scores = Return valid -> valid <> [] -> 1 <= top_n ->
  calculate_final_score scores top_n
    = round_half_up_int (selected_mean valid top_n).
Proof.
  intros C V N. unfold calculate_final_score.
  destruct scores as [|s rest].
  - simpl in C. inversion C. congruence.
  - cbn [is_empty]. rewrite C. cbn [bind].
    destruct valid as [|f fs]; [congruence|]. cbn [is_empty].
    unfold average, truediv, selected_mean.
    set (top := top_scores_of (f :: fs) top_n).
    assert (L : len top = Z.min top_n (len (sort_reverse (f :: fs)))).
    { unfold top, top_scores_of. apply slice_to_length. lia. }
    assert (L' : 1 <= len (sort_reverse (f :: fs))).
    { unfold len. rewrite sort_reverse_length. simpl List.length. lia. }
    destruct (Z.eqb_spec (len top) 0) as [E|E]; [lia|]. reflexivity.
Qed.

(** C7.  Degenerate case: when the list is empty, or no element of it
    passes the filter, the function returns 0 (for any [top_n], so for
    every [top_n >= 1]) and raises nothing. *)
Theorem degenerate_returns_zero (scores : list pyobj) (top_n : Z) :
  scores = [] \/ filter keeps scores = [] ->
  calculate_final_score scores top_n = Return 0.
Proof.
  intros [->|H]; [reflexivity|].
  unfold calculate_final_score.
  destruct (is_empty scores); [reflexivity|].
  now rewrite (comprehension_nothing_kept scores H).
Qed.

Lemma degenerate_returns_zero_witness :
  filter keeps [PyStr "abc"; PyNone; PyStr "8.5"; PyList []] = [] /\
  calculate_final_score [PyStr "abc"; PyNone; PyStr "8.5"; PyList []] 12 = Return 0.
Proof.
  split; [reflexivity|].
  apply (degenerate_returns_zero [PyStr "abc"; PyNone; PyStr "8.5"; PyList []] 12).
  right. reflexivity.
Defined.

Example empty_list_scores_zero (top_n : Z) : calculate_final_score [] top_n = Return 0.
Proof. reflexivity. Qed.

(** *** The filter *)






Example digits_of_other_scripts :
  keeps (PyStr "٣") = true /\ keeps (PyStr "８０") = true /\
  keeps (PyStr "①") = true /\ keeps (PyStr "²") = true /\
  calculate_final_score [PyStr "٣"] 12 = Return 3 /\
  calculate_final_score [PyInt 90; PyStr "８０"] 12 = Return 85 /\
  calculate_final_score [PyStr "①"] 12 = Raise ValueError.
Proof. vm_compute. repeat split; reflexivity. Qed.

Example mixed_list_filter :
  filter keeps [PyInt 90; PyInt 85; PyStr "70"; PyStr "abc"; PyNone; PyStr "-5";
                PyStr "87.5"; PyFloat (of_Z 3)]
    = [PyInt 90; PyInt 85; PyStr "70"; PyFloat (of_Z 3)].
Proof. reflexivity. Qed.

(** *** The selection *)

(** C2, as the code has it.  When no valid score is a NaN, the selected
    scores are the first [min(top_n, count)] of the valid scores sorted in
    descending order: the sorted list holds the same scores and none of them
    is followed, at any distance, by a greater one.  With fewer than [top_n]
    valid scores all of them are selected, nothing is padded and the
    division by the count raises nothing: the result is the rounded mean of
    the selection. *)
Theorem selection_is_top_n_of_sorted (scores : list pyobj) (top_n : Z)
    (valid : list float) :
  1 <= top_n ->
  comprehension scores = Return valid ->
  valid <> [] ->
  Forall (fun f => is_nan f = false) valid ->
  let sorted := sort_reverse valid in
  let top_scores := top_scores_of valid top_n in
  Permutation sorted valid /\
  StronglySorted (fun a b => ltb a b = false) sorted /\
  top_scores = firstn (Z.to_nat (Z.min top_n (len valid))) sorted /\
  len top_scores = Z.min top_n (len valid) /\
  (len valid <= top_n -> top_scores = sorted) /\
  calculate_final_score scores top_n
    = round_half_up_int (div (sum top_scores) (of_Z (len top_scores))).
Proof.
  intros N C V F sorted top_scores.
  assert (Ls : len sorted = len valid).
  { unfold len, sorted. now rewrite sort_reverse_length. }
  split; [apply sort_reverse_perm|].
  split; [now apply sort_reverse_strongly_descending|].
  split.
  { unfold top_scores, top_scores_of. fold sorted.
    rewrite slice_to_firstn by lia.
    destruct (Z.le_ge_cases top_n (len valid)) as [H|H].
    - now rewrite Z.min_l by lia.
    - rewrite Z.min_r by lia. unfold len in *.
      rewrite !firstn_all2; auto; lia. }
  split.
  { unfold top_scores, top_scores_of. fold sorted.
    rewrite slice_to_length by lia. now rewrite Ls. }
  split.
  { intros H. unfold top_scores, top_scores_of. apply slice_to_all.
    fold sorted. lia. }
  now apply calculate_final_score_nonempty.
Qed.

Lemma selection_is_top_n_of_sorted_witness :
  let scores := [PyInt 88; PyInt 89] in
  let valid := [of_Z 88; of_Z 89] in
  top_scores_of valid 12 = [of_Z 89; of_Z 88] /\
  calculate_final_score scores 12
    = round_half_up_int (div (sum [of_Z 89; of_Z 88]) (of_Z 2)).
Proof.
  intros scores valid.
  destruct (selection_is_top_n_of_sorted scores 12 valid) as (_ & _ & T & _ & _ & R).
  - lia.
  - reflexivity.
  - discriminate.
  - repeat constructor.
  - split; [reflexivity | exact R].
Defined.

(** C2, as the specification words it, fails on a list with a NaN, which
    compares false with every score: [1, nan, 3] is left as it is by the
    sort, although 3 is greater than 1, so the selection at [top_n = 1] is
    the score 1 and not the greatest one; and of [nan, 3] the selection is
    the NaN, with which the call raises. *)
Lemma nan_selection_counterexample :
  let scores := [PyInt 1; PyFloat S754_nan; PyInt 3] in
  let valid := [of_Z 1; S754_nan; of_Z 3] in
  comprehension scores = Return valid /\
  sort_reverse valid = valid /\
  ltb (of_Z 1) (of_Z 3) = true /\
  ~ StronglySorted (fun a b => ltb a b = false) (sort_reverse valid) /\
  top_scores_of valid 1 = [of_Z 1] /\
  calculate_final_score scores 1 = Return 1 /\
  top_scores_of [S754_nan; of_Z 3] 1 = [S754_nan] /\
  calculate_final_score [PyFloat S754_nan; PyInt 3] 1 = Raise ValueError.
Proof.
  intros scores valid.
  assert (S : sort_reverse valid = valid) by (vm_compute; reflexivity).
  assert (L : ltb (of_Z 1) (of_Z 3) = true) by (vm_compute; reflexivity).
  split; [reflexivity|]. split; [exact S|]. split; [exact L|].
  split.
  { rewrite S. intros H. inversion H as [|? ? _ F]; subst.
    inversion F as [|? ? _ F']; subst. inversion F' as [|? ? E _]; subst.
    vm_compute in E. discriminate. }
  repeat split; vm_compute; reflexivity.
Qed.

(** With a NaN further elements may still move: the sort goes by what the
    comparisons answer, not by the values. *)
Example nan_among_four :
  sort_reverse [of_Z 1; S754_nan; of_Z 2; of_Z 3]
    = [S754_nan; of_Z 3; of_Z 2; of_Z 1] /\
  calculate_final_score [PyInt 1; PyFloat S754_nan; PyInt 2; PyInt 3] 1
    = Raise ValueError.
Proof. vm_compute. split; reflexivity. Qed.

Example two_scores_top_twelve :
  calculate_final_score [PyInt 88; PyInt 89] 12 = Return 89.
Proof. vm_compute. reflexivity. Qed.

Example top_two_of_mixed :
  calculate_final_score [PyInt 90; PyInt 85; PyStr "70"; PyStr "abc"; PyNone] 2
    = Return 88.
Proof. vm_compute. reflexivity. Qed.

(** *** The rounding *)

(** C1.  Whenever the mean of the selected scores (the double of line 74)
    is exactly [X + 1/2] with [0 <= X], the function returns [X + 1]:
    halves are rounded away from zero, never to the even neighbour. *)
Theorem half_rounds_up (scores : list pyobj) (top_n : Z)
    (valid : list float) (X : Z) :
  1 <= top_n ->
  comprehension scores = Return valid ->
  valid <> [] ->
  0 <= X ->
  2 * units (selected_mean valid top_n) = (2 * X + 1) * unit_scale ->
  calculate_final_score scores top_n = Return (X + 1).
Proof.
  intros N C V HX HU.
  rewrite (calculate_final_score_nonempty scores top_n valid C V N).
  assert (P : 0 < unit_scale) by (unfold unit_scale; now apply pow2_pos).
  destruct (selected_mean valid top_n) as [s|s| |s m e] eqn:M;
    try (cbn [units] in HU; nia).
  unfold selected_mean in M. apply div_finite_bounded in M as [Hm He].
  rewrite round_half_up_int_finite. cbv zeta.
  assert (Pe : 0 < 2 ^ (e + 1074)) by (apply pow2_pos; lia).
  destruct s.
  { cbn [units cond_Zopp] in HU. nia. }
  cbn [units cond_Zopp] in HU.
  unfold nearest_half_up.
  destruct (Z.leb_spec 0 e) as [E0|E0].
  - exfalso. unfold unit_scale in *.
    replace (e + 1074) with (1074 + e) in HU by lia.
    rewrite Z.pow_add_r in HU by lia.
    assert (2 * (Z.pos m * 2 ^ e) = 2 * X + 1) by nia. lia.
  - assert (Pn : 0 < 2 ^ (- e)) by (apply pow2_pos; lia).
    assert (S1 : unit_scale = 2 ^ (e + 1074) * 2 ^ (- e)).
    { unfold unit_scale. rewrite <- Z.pow_add_r by lia. f_equal. lia. }
    assert (E2 : 2 * Z.pos m = (2 * X + 1) * 2 ^ (- e)) by (rewrite S1 in HU; nia).
    assert (S2 : 2 ^ (1 - e) = 2 * 2 ^ (- e)).
    { rewrite <- Z.pow_succ_r by lia. f_equal. lia. }
    assert (Q : (2 * Z.pos m + 2 ^ (- e)) / 2 ^ (1 - e) = X + 1).
    { rewrite S2, E2. symmetry. apply Z.div_unique with (r := 0); nia. }
    rewrite Q.
    assert (S3 : 2 <= 2 ^ (- e)).
    { change 2 with (2 ^ 1) at 1. apply pow2_le. lia. }
    assert (B : X + 1 < 10 ^ 28).
    { assert (2 * (2 * X + 1) < 2 ^ 54) by (change (2 ^ 54) with (2 * 2 ^ 53); nia).
      assert (2 ^ 54 < 10 ^ 28) by (vm_compute; reflexivity). lia. }
    destruct (Z.leb_spec (10 ^ 28) (X + 1)); [lia | reflexivity].
Qed.

Lemma half_rounds_up_witness :
  2 * units (selected_mean [of_Z 88; of_Z 89] 12) = (2 * 88 + 1) * unit_scale /\
  calculate_final_score [PyInt 88; PyInt 89] 12 = Return (88 + 1).
Proof.
  split; [vm_compute; reflexivity|].
  apply (half_rounds_up [PyInt 88; PyInt 89] 12 [of_Z 88; of_Z 89] 88).
  - lia.
  - reflexivity.
  - discriminate.
  - lia.
  - vm_compute. reflexivity.
Defined.

(** C1, as the specification words it, fails where the double of line 74
    is not the exact mean: the selected scores 2^53 and 1 have the exact
    mean 2^52 + 1/2, their double sum is 2^53, the mean the code rounds is
    2^52, and that is the result. *)
Lemma half_mean_counterexample :
  let scores := [PyInt 9007199254740992; PyInt 1] in
  let valid := [of_Z 9007199254740992; of_Z 1] in
  let X := 4503599627370496 in
  comprehension scores = Return valid /\
  top_scores_of valid 2 = valid /\
  map units valid = [9007199254740992 * unit_scale; 1 * unit_scale] /\
  2 * exact_sum_units (top_scores_of valid 2)
    = (2 * X + 1) * (len (top_scores_of valid 2) * unit_scale) /\
  units (selected_mean valid 2) = X * unit_scale /\
  calculate_final_score scores 2 = Return X /\
  calculate_final_score scores 2 <> Return (X + 1).
Proof.
  intros scores valid X.
  assert (R : calculate_final_score scores 2 = Return X)
    by (vm_compute; reflexivity).
  repeat split; try (vm_compute; reflexivity).
  rewrite R. vm_compute. discriminate.
Qed.

(** *** Where the mean is computed *)

Lemma nearest_half_up_units (m : positive) (e : Z) :
  -1074 <= e ->
  nearest_half_up m e
    = (2 * (Z.pos m * 2 ^ (e + 1074)) + unit_scale) / (2 * unit_scale).
Proof.
  intros He. unfold nearest_half_up, unit_scale.
  assert (P : 0 < 2 ^ 1074) by now apply pow2_pos.
  destruct (Z.leb_spec 0 e) as [E0|E0].
  - rewrite (Z.pow_add_r 2 e 1074) by lia.
    assert (0 < 2 ^ e) by now apply pow2_pos.
    apply Z.div_unique with (r := 2 ^ 1074); nia.
  - assert (S1 : 2 ^ 1074 = 2 ^ (- e) * 2 ^ (e + 1074)).
    { rewrite <- Z.pow_add_r by lia. f_equal. lia. }
    assert (S2 : 2 ^ (1 - e) = 2 * 2 ^ (- e)).
    { rewrite <- Z.pow_succ_r by lia. f_equal. lia. }
    assert (Pe : 0 < 2 ^ (e + 1074)) by (apply pow2_pos; lia).
    assert (Pn : 0 < 2 ^ (- e)) by (apply pow2_pos; lia).
    rewrite S1 at 1 2. rewrite S2.
    replace (2 * (Z.pos m * 2 ^ (e + 1074)) + 2 ^ (- e) * 2 ^ (e + 1074))
      with ((2 * Z.pos m + 2 ^ (- e)) * 2 ^ (e + 1074)) by ring.
    replace (2 * (2 ^ (- e) * 2 ^ (e + 1074)))
      with ((2 * 2 ^ (- e)) * 2 ^ (e + 1074)) by ring.
    symmetry. apply Z.div_mul_cancel_r; lia.
Qed.

Lemma half_away_signed (s : bool) (u d : Z) :
  0 < u -> half_away (cond_Zopp s u) d = cond_Zopp s ((2 * u + d) / (2 * d)).
Proof.
  intros H. unfold half_away. destruct s; cbn [cond_Zopp].
  - rewrite Z.sgn_neg, Z.abs_opp, Z.abs_eq by lia. ring.
  - rewrite Z.sgn_pos, Z.abs_eq by lia. ring.
Qed.

(** C4, as the code has it.  The mean is computed in binary floating
    point (line 74); the decimal type enters only afterwards and adds no
    error of its own: whenever that double is finite and below the 28-digit
    limit of the context, the result is its exact value rounded to the
    nearest integer, halves away from zero. *)
Theorem decimal_step_is_exact_on_the_float_mean (scores : list pyobj) (top_n : Z)
    (valid : list float) :
  1 <= top_n ->
  comprehension scores = Return valid ->
  valid <> [] ->
  let avg := selected_mean valid top_n in
  is_finite avg = true ->
  2 * Z.abs (units avg) < (2 * 10 ^ 28 - 1) * unit_scale ->
  calculate_final_score scores top_n = Return (half_away (units avg) unit_scale).
Proof.
  intros N C V avg F B.
  rewrite (calculate_final_score_nonempty scores top_n valid C V N). fold avg.
  assert (P : 0 < unit_scale) by (apply pow2_pos; lia).
  destruct avg as [s|s| |s m e] eqn:M; try discriminate.
  - now rewrite round_half_up_int_zero.
  - unfold avg, selected_mean in M. apply div_finite_bounded in M as [Hm He].
    rewrite round_half_up_int_finite. cbv zeta.
    rewrite nearest_half_up_units by lia.
    assert (Pe : 0 < 2 ^ (e + 1074)) by (apply pow2_pos; lia).
    set (u := Z.pos m * 2 ^ (e + 1074)) in *.
    assert (Hu : 0 < u) by (unfold u; nia).
    assert (A : Z.abs (units (S754_finite s m e)) = u).
    { cbn [units]. fold u. destruct s; simpl cond_Zopp; lia. }
    rewrite A in B.
    cbn [units]. fold u. rewrite half_away_signed by lia.
    assert (R : (2 * u + unit_scale) / (2 * unit_scale) < 10 ^ 28).
    { apply Z.div_lt_upper_bound; lia. }
    destruct (Z.leb_spec (10 ^ 28) ((2 * u + unit_scale) / (2 * unit_scale)));
      [lia | reflexivity].
Qed.

Lemma decimal_step_is_exact_on_the_float_mean_witness :
  let valid := [of_Z 90; of_Z 85; of_Z 70] in
  is_finite (selected_mean valid 2) = true /\
  half_away (units (selected_mean valid 2)) unit_scale = 88 /\
  calculate_final_score [PyInt 90; PyInt 85; PyStr "70"; PyStr "abc"; PyNone] 2
    = Return (half_away (units (selected_mean valid 2)) unit_scale).
Proof.
  intros valid.
  split; [reflexivity|]. split; [vm_compute; reflexivity|].
  apply (decimal_step_is_exact_on_the_float_mean
           [PyInt 90; PyInt 85; PyStr "70"; PyStr "abc"; PyNone] 2 valid).
  - lia.
  - reflexivity.
  - discriminate.
  - reflexivity.
  - vm_compute. reflexivity.
Defined.

(** C4, as the specification words it, fails: the double sum of 2^53 and 1
    is 2^53 (the tie goes to the even neighbour), so the mean the code
    rounds is 2^52, while the exact mean 2^52 + 1/2 rounds to 2^52 + 1. *)
Lemma exact_mean_counterexample :
  let scores := [PyInt 9007199254740992; PyInt 1] in
  let valid := [of_Z 9007199254740992; of_Z 1] in
  comprehension scores = Return valid /\
  top_scores_of valid 2 = valid /\
  exact_final_score (top_scores_of valid 2) = 4503599627370497 /\
  calculate_final_score scores 2 = Return 4503599627370496 /\
  calculate_final_score scores 2
    <> Return (exact_final_score (top_scores_of valid 2)).
Proof.
  intros scores valid.
  assert (E : exact_final_score (top_scores_of valid 2) = 4503599627370497)
    by (vm_compute; reflexivity).
  assert (R : calculate_final_score scores 2 = Return 4503599627370496)
    by (vm_compute; reflexivity).
  repeat split; try assumption; try reflexivity.
  rewrite E, R. discriminate.
Qed.

(** The same effect on scores between 0 and 100: the doubles 0.5 and
    0.49999999999999994 have the exact mean 0.49999999999999997, which
    rounds to 0; their double sum is 1.0 and the code returns 1. *)
Example exact_mean_small_scores :
  let a := S754_finite false (2 ^ 52) (-53) in
  let b := S754_finite false (2 ^ 53 - 1) (-54) in
  valid a = true /\ valid b = true /\
  exact_final_score (top_scores_of [a; b] 2) = 0 /\
  calculate_final_score [PyFloat a; PyFloat b] 2 = Return 1.
Proof. vm_compute. repeat split; reflexivity. Qed.

End ScoreClaims.

(* ===================================================================== *)
(** ** Claims about errors and about the order of the input *)
(* ===================================================================== *)

Module OrderClaims.

Import Float Dec Score ScoreFacts FloatFacts DecFacts ScoreSpec OrderFacts ScoreClaims.

Lemma binary_round_not_nan (s : bool) (m : positive) (e : Z) :
  is_nan (binary_round prec emax s m e) = false.
Proof.
  unfold binary_round.
  destruct (shl_align m e (fexp prec emax (Z.pos (digits2_pos m) + e))) as [mz ez].
  pose proof (round_aux_result s (Z.pos mz) ez loc_Exact ltac:(lia)) as R.
  destruct (binary_round_aux prec emax s (Z.pos mz) ez loc_Exact);
    try reflexivity. contradiction.
Qed.

Lemma of_Z_not_nan (z : Z) : is_nan (of_Z z) = false.
Proof.
  unfold of_Z, binary_normalize. destruct z; [reflexivity| |];
    apply binary_round_not_nan.
Qed.

(** No NaN among the elements of the input. *)
Definition nan_free (scores : list pyobj) : Prop :=
  Forall (fun s => s <> PyFloat S754_nan) scores.

Lemma float_or_zero_not_nan (s : pyobj) :
  s <> PyFloat S754_nan -> is_nan (float_or_zero s) = false.
Proof.
  intros H. unfold float_or_zero.
  destruct s as [|b|z|f|t|l|d]; cbn [to_float]; try reflexivity.
  - apply of_Z_not_nan.
  - unfold of_int. pose proof (of_Z_not_nan z) as N.
    destruct (of_Z z); try reflexivity; discriminate.
  - destruct f; try reflexivity. congruence.
  - unfold float_of_str. destruct (Unicode.decode t) as [[|c cs]|]; try reflexivity.
    destruct (decimal_value 0 (c :: cs)); [apply of_Z_not_nan | reflexivity].
Qed.

Lemma filter_permutation {A : Type} (p : A -> bool) (l l' : list A) :
  Permutation l l' -> Permutation (filter p l) (filter p l').
Proof.
  induction 1 as [|x l l' P IH|x y l|l l' l'' P1 IH1 P2 IH2]; cbn [filter].
  - constructor.
  - destruct (p x); [now constructor | exact IH].
  - destruct (p x), (p y); try reflexivity. apply perm_swap.
  - now transitivity (filter p l').
Qed.

Lemma norm_ordinary (f : float) : is_nan f = false -> ordinary (norm f).
Proof. intros H. split; [now rewrite is_nan_norm | now destruct f]. Qed.

(** The valid scores of two arrangements of a NaN-free input sort to the
    same list, up to the sign of zero. *)
Lemma sorted_valid_permutation (scores scores' : list pyobj)
    (valid valid' : list float) :
  Permutation scores scores' -> nan_free scores ->
  comprehension scores = Return valid ->
  comprehension scores' = Return valid' ->
  map norm (sort_reverse valid) = map norm (sort_reverse valid').
Proof.
  intros P N C C'.
  apply comprehension_returns in C, C'. subst valid valid'.
  assert (F : forall l, Forall (fun s => s <> PyFloat S754_nan) l ->
                Forall (fun f => is_nan f = false)
                       (map float_or_zero (filter keeps l))).
  { intros l H. rewrite Forall_map. apply Forall_forall. intros s I.
    apply filter_In in I as [I _]. apply float_or_zero_not_nan.
    rewrite Forall_forall in H. now apply H. }
  assert (N' : nan_free scores').
  { unfold nan_free in *. eapply Permutation_Forall; eauto. }
  rewrite !sort_reverse_norm by (apply F; assumption).
  apply sort_reverse_permutation.
  - apply Permutation_map, Permutation_map, filter_permutation, P.
  - rewrite !Forall_map. apply Forall_forall. intros s I.
    apply filter_In in I as [I _]. apply norm_ordinary, float_or_zero_not_nan.
    unfold nan_free in N. rewrite Forall_forall in N. now apply N.
Qed.

Lemma comprehension_permutation (scores scores' : list pyobj) (valid : list float) :
  Permutation scores scores' ->
  comprehension scores = Return valid ->
  exists valid', comprehension scores' = Return valid' /\ Permutation valid valid'.
Proof.
  intros P C.
  assert (R : exists v', comprehension scores' = Return v').
  { apply comprehension_returns_iff. eapply Permutation_Forall; [exact P|].
    apply comprehension_returns_iff. now exists valid. }
  destruct R as [valid' C']. exists valid'. split; [exact C'|].
  apply comprehension_returns in C, C'. subst.
  apply Permutation_map, filter_permutation, P.
Qed.

Lemma calculate_final_score_raises (scores : list pyobj) (top_n : Z) (e : exn) :
  comprehension scores = Raise e -> calculate_final_score scores top_n = Raise e.
Proof.
  intros C. unfold calculate_final_score.
  destruct scores; [discriminate|]. cbn [is_empty]. now rewrite C.
Qed.

Lemma calculate_final_score_no_valid (scores : list pyobj) (top_n : Z) :
  comprehension scores = Return [] -> calculate_final_score scores top_n = Return 0.
Proof.
  intros C. unfold calculate_final_score.
  destruct (is_empty scores); [reflexivity|]. now rewrite C.
Qed.

(** C6, as the code has it.  On an input without NaN, the calls on two
    arrangements of the same elements either both raise or both return the
    same score: the result depends on the multiset of the values only. *)
Theorem permutation_invariant_without_nan (scores scores' : list pyobj) (top_n : Z) :
  1 <= top_n ->
  Permutation scores scores' ->
  nan_free scores ->
  returned (calculate_final_score scores top_n)
    = returned (calculate_final_score scores' top_n).
Proof.
  intros N P F.
  destruct (comprehension scores) as [valid|e] eqn:C.
  - destruct (comprehension_permutation scores scores' valid P C) as (valid' & C' & PV).
    destruct valid as [|f fs].
    + apply Permutation_nil in PV. subst valid'.
      now rewrite !calculate_final_score_no_valid.
    + assert (V' : valid' <> []).
      { intros ->. symmetry in PV. now apply Permutation_nil in PV. }
      rewrite (calculate_final_score_nonempty scores top_n _ C ltac:(discriminate) N).
      rewrite (calculate_final_score_nonempty scores' top_n _ C' V' N).
      f_equal. apply selected_mean_norm.
      now apply (sorted_valid_permutation scores scores').
  - rewrite (calculate_final_score_raises scores top_n e C).
    destruct (comprehension scores') as [valid'|e'] eqn:C'.
    + symmetry in P.
      destruct (comprehension_permutation scores' scores valid' P C') as (v & Cv & _).
      congruence.
    + now rewrite (calculate_final_score_raises scores' top_n e' C').
Qed.

Lemma permutation_invariant_without_nan_witness :
  let scores := [PyInt 90; PyStr "70"; PyNone; PyInt 85] in
  let scores' := [PyNone; PyInt 85; PyInt 90; PyStr "70"] in
  Permutation scores scores' /\
  returned (calculate_final_score scores 2) = Some 88 /\
  returned (calculate_final_score scores 2)
    = returned (calculate_final_score scores' 2).
Proof.
  intros scores scores'.
  assert (P : Permutation scores scores').
  { unfold scores, scores'.
    apply (Permutation_app_comm [PyInt 90; PyStr "70"] [PyNone; PyInt 85]). }
  split; [exact P|]. split; [vm_compute; reflexivity|].
  apply (permutation_invariant_without_nan scores scores' 2).
  - lia.
  - exact P.
  - repeat constructor; discriminate.
Defined.

(** C6, as the specification words it, fails: comparisons with NaN are all
    false, so the sort leaves each of these two lists as it is, and one
    arrangement selects the NaN while the other selects the score. *)
Lemma nan_order_counterexample :
  let scores := [PyFloat S754_nan; PyInt 1] in
  let scores' := [PyInt 1; PyFloat S754_nan] in
  Permutation scores scores' /\
  calculate_final_score scores 1 = Raise ValueError /\
  calculate_final_score scores' 1 = Return 1 /\
  calculate_final_score scores 1 <> calculate_final_score scores' 1.
Proof.
  intros scores scores'.
  split; [apply perm_swap|].
  split; [vm_compute; reflexivity|].
  split; [vm_compute; reflexivity|].
  vm_compute. discriminate.
Qed.

(** C5: inputs on which the function raises.  A superscript digit passes
    [str.isdigit] but is refused by [float]; a NaN cannot be converted to an
    int; an infinity, and any mean of 10^28 or more, make the decimal
    rounding signal InvalidOperation; an int beyond the doubles overflows. *)
Theorem raising_inputs :
  keeps (PyStr "²") = true /\
  calculate_final_score [PyInt 90; PyStr "²"] 12 = Raise ValueError /\
  calculate_final_score [PyFloat S754_nan] 12 = Raise ValueError /\
  calculate_final_score [PyFloat (S754_infinity false)] 12 = Raise InvalidOperation /\
  calculate_final_score [PyInt (10 ^ 30)] 12 = Raise InvalidOperation /\
  calculate_final_score [PyInt (10 ^ 400)] 12 = Raise OverflowError.
Proof. vm_compute. repeat split; reflexivity. Qed.

End OrderClaims.



(* ===================================================================== *)
(** ** Upper bounds through rounding *)
(* ===================================================================== *)

Module FloatBound.

Import Float FloatFacts.

(** [f] is a double between 0 and [B] units of 2^-1074. *)
Definition within (B : Z) (f : float) : Prop :=
  match f with
  | S754_zero _ => True
  | S754_finite false m e => -1074 <= e /\ Z.pos m * 2 ^ (e + 1074) <= B
  | _ => False
  end.

Lemma pow2_add (a b : Z) : 0 <= a -> 0 <= b -> 2 ^ (a + b) = 2 ^ a * 2 ^ b.
Proof. intros. now apply Z.pow_add_r. Qed.

Lemma pow2_lt_inv (a b : Z) : 0 <= b -> 2 ^ a < 2 ^ b -> a < b.
Proof. intros Hb H. apply (Z.pow_lt_mono_r_iff 2); lia. Qed.

Lemma Zdigits2_pos (m : Z) : 0 < m -> 1 <= Zdigits2 m.
Proof. destruct m; simpl; lia. Qed.

(** Rounding to nearest never crosses a double: if the exact value
    [m * 2^e] (or, for an inexact location, a value strictly between
    [m * 2^e] and [(m+1) * 2^e]) is at most the double [Kb * 2^F], so is
    the rounded result. *)
Lemma round_aux_within (m e : Z) (l : location) (Kb F : Z) :
  0 <= m -> -1074 <= e -> 0 < Kb < 2 ^ 53 -> -1074 <= F <= 900 ->
  (is_exact l = false -> e <= fexp prec emax (Zdigits2 m + e)) ->
  m * 2 ^ (e + 1074) <= Kb * 2 ^ (F + 1074) ->
  (is_exact l = false -> m * 2 ^ (e + 1074) < Kb * 2 ^ (F + 1074)) ->
  within (Kb * 2 ^ (F + 1074)) (binary_round_aux prec emax false m e l).
Proof.
  intros Hm He HK HF Hgrid Hle Hlt.
  destruct (round_aux_shape false m e l Hm) as (m1 & Hm1 & Hex & ->).
  pose proof (shift_amount_nonneg m e) as Hn1.
  set (n1 := shift_amount m e) in *. set (e1 := e + n1) in *.
  set (B := Kb * 2 ^ (F + 1074)) in *.
  assert (Pn1 : 0 < 2 ^ n1) by now apply pow2_pos.
  assert (Pe : 0 < 2 ^ (e + 1074)) by (apply pow2_pos; lia).
  assert (PF : 0 < 2 ^ (F + 1074)) by (apply pow2_pos; lia).
  assert (Se1 : 2 ^ (e1 + 1074) = 2 ^ n1 * 2 ^ (e + 1074)).
  { unfold e1. replace (e + n1 + 1074) with (n1 + (e + 1074)) by lia.
    apply pow2_add; lia. }
  assert (Hq : 0 <= m / 2 ^ n1) by (apply Z.div_pos; lia).
  pose proof (Z.div_mod m (2 ^ n1) ltac:(lia)) as Hdm.
  pose proof (Z.mod_pos_bound m (2 ^ n1) Pn1) as Hmod.
  assert (A : m1 * 2 ^ (e1 + 1074) <= B).
  { destruct (Z.eqb_spec (m mod 2 ^ n1) 0) as [Z0|NZ];
      [destruct (is_exact l) eqn:X|].
    - (* nothing is lost: the value is kept *)
      assert (L : l = loc_Exact) by (destruct l; [reflexivity | discriminate]).
      rewrite (Hex Z0 L), Se1.
      assert (m = 2 ^ n1 * (m / 2 ^ n1)) by lia. nia.
    - (* an inexact location on the canonical grid *)
      assert (E1 : e1 = fexp prec emax (Zdigits2 m + e)).
      { specialize (Hgrid eq_refl). unfold e1, n1, shift_amount. lia. }
      rewrite fexp_eq in E1.
      assert (G : e1 <= F).
      { destruct (Z.eq_dec m 0) as [->|M0].
        - simpl Zdigits2 in E1. unfold e1 in *. lia.
        - pose proof (Zdigits2_lower m ltac:(lia)) as Hd.
          pose proof (Zdigits2_pos m ltac:(lia)) as Hd1.
          destruct (Z.le_gt_cases e1 F) as [|Gt]; [assumption | exfalso].
          assert (Ed : Zdigits2 m - 1 + (e + 1074) = (e1 - F - 1) + (53 + (F + 1074)))
            by lia.
          assert (P1 : 2 ^ (Zdigits2 m - 1) * 2 ^ (e + 1074)
                       = 2 ^ (e1 - F - 1) * (2 ^ 53 * 2 ^ (F + 1074))).
          { rewrite <- !pow2_add by lia. f_equal. lia. }
          assert (P2 : 0 < 2 ^ (e1 - F - 1)) by (apply pow2_pos; lia).
          specialize (Hlt eq_refl). unfold B in Hlt. nia. }
      assert (SB : 2 ^ (F + 1074) = 2 ^ (F - e1) * 2 ^ (e1 + 1074)).
      { rewrite <- pow2_add by (unfold e1; lia). f_equal. lia. }
      assert (PG : 0 < 2 ^ (F - e1)) by (apply pow2_pos; lia).
      set (b := Kb * 2 ^ (F - e1)).
      assert (Lt : m < b * 2 ^ n1).
      { specialize (Hlt eq_refl). unfold B in Hlt. rewrite SB, Se1 in Hlt.
        unfold b. nia. }
      assert (Q : m / 2 ^ n1 < b) by (apply Z.div_lt_upper_bound; lia).
      unfold B. rewrite SB. fold b.
      assert (0 < 2 ^ (e1 + 1074)) by (rewrite Se1; nia). nia.
    - (* bits were dropped: the canonical grid again *)
      assert (N1 : 0 < n1).
      { destruct (Z.eq_dec n1 0) as [E0|]; [|lia].
        rewrite E0 in NZ. rewrite Z.pow_0_r, Z.mod_1_r in NZ. congruence. }
      assert (E1 : e1 = fexp prec emax (Zdigits2 m + e)).
      { unfold e1, n1, shift_amount in *. lia. }
      rewrite fexp_eq in E1.
      assert (M0 : 0 < m).
      { destruct (Z.eq_dec m 0) as [E0|]; [|lia].
        rewrite E0 in NZ. rewrite Z.mod_0_l in NZ by lia. congruence. }
      assert (G : e1 <= F).
      { pose proof (Zdigits2_lower m M0) as Hd.
        pose proof (Zdigits2_pos m M0) as Hd1.
        destruct (Z.le_gt_cases e1 F) as [|Gt]; [assumption | exfalso].
        assert (P1 : 2 ^ (Zdigits2 m - 1) * 2 ^ (e + 1074)
                     = 2 ^ (e1 - F - 1) * (2 ^ 53 * 2 ^ (F + 1074))).
        { rewrite <- !pow2_add by lia. f_equal. lia. }
        assert (P2 : 0 < 2 ^ (e1 - F - 1)) by (apply pow2_pos; lia).
        unfold B in Hle. nia. }
      assert (SB : 2 ^ (F + 1074) = 2 ^ (F - e1) * 2 ^ (e1 + 1074)).
      { rewrite <- pow2_add by (unfold e1; lia). f_equal. lia. }
      assert (PG : 0 < 2 ^ (F - e1)) by (apply pow2_pos; lia).
      set (b := Kb * 2 ^ (F - e1)).
      assert (Le : m <= b * 2 ^ n1).
      { unfold B in Hle. rewrite SB, Se1 in Hle. unfold b. nia. }
      assert (Lt : m < b * 2 ^ n1).
      { destruct (Z.eq_dec m (b * 2 ^ n1)) as [E|]; [|lia].
        rewrite E, Z.mod_mul in NZ by lia. congruence. }
      assert (Q : m / 2 ^ n1 < b) by (apply Z.div_lt_upper_bound; lia).
      unfold B. rewrite SB. fold b.
      assert (0 < 2 ^ (e1 + 1074)) by (rewrite Se1; nia). nia. }
  (* the second shift only drops bits *)
  assert (H1 : 0 <= m1) by lia.
  pose proof (shift_amount_nonneg m1 e1) as Hn2.
  pose proof (shift_exponent m1 e1) as He2.
  set (n2 := shift_amount m1 e1) in *.
  assert (Pn2 : 0 < 2 ^ n2) by now apply pow2_pos.
  assert (Pe1 : 0 < 2 ^ (e1 + 1074)) by (rewrite Se1; nia).
  assert (Se2 : 2 ^ (e1 + n2 + 1074) = 2 ^ n2 * 2 ^ (e1 + 1074)).
  { replace (e1 + n2 + 1074) with (n2 + (e1 + 1074)) by lia.
    apply pow2_add; unfold e1; lia. }
  pose proof (Z.mul_div_le m1 (2 ^ n2) Pn2) as Hfl.
  assert (Hq2 : 0 <= m1 / 2 ^ n2) by (apply Z.div_pos; lia).
  assert (A2 : m1 / 2 ^ n2 * 2 ^ (e1 + n2 + 1074) <= B) by (rewrite Se2; nia).
  destruct (finish_cases false (m1 / 2 ^ n2) (e1 + n2) Hq2)
    as [[_ ->]|[(Hp & Hle2 & ->)|(Hp & Hgt & _)]].
  - exact I.
  - cbn [within]. rewrite Z2Pos.id by lia. split; [lia | exact A2].
  - exfalso.
    assert (L1 : 2 ^ (e1 + n2 + 1074) <= B).
    { assert (0 < 2 ^ (e1 + n2 + 1074)) by (rewrite Se2; nia). nia. }
    assert (L2 : B < 2 ^ (53 + (F + 1074))).
    { rewrite pow2_add by lia. unfold B. nia. }
    assert (e1 + n2 + 1074 < 53 + (F + 1074)) by (apply pow2_lt_inv; lia).
    lia.
Qed.

(** *** Alignment *)

Lemma iter_xO (m d : positive) : Z.pos (Pos.iter xO m d) = Z.pos m * 2 ^ Z.pos d.
Proof.
  induction d as [|d IH] using Pos.peano_ind.
  - cbn [Pos.iter]. rewrite Pos2Z.inj_xO. change (2 ^ 1) with 2. lia.
  - rewrite Pos.iter_succ, Pos2Z.inj_xO, IH, Pos2Z.inj_succ.
    rewrite Z.pow_succ_r by lia. lia.
Qed.

Lemma shl_align_spec (m : positive) (e e0 : Z) :
  snd (shl_align m e e0) = Z.min e e0 /\
  Z.pos (fst (shl_align m e e0)) = Z.pos m * 2 ^ (e - Z.min e e0).
Proof.
  unfold shl_align. destruct (e0 - e) as [|d|d] eqn:D; cbn [fst snd].
  - rewrite Z.min_l by lia. rewrite Z.sub_diag, Z.pow_0_r. lia.
  - rewrite Z.min_l by lia. rewrite Z.sub_diag, Z.pow_0_r. lia.
  - rewrite Z.min_r by lia. split; [reflexivity|].
    rewrite iter_xO. f_equal. f_equal. lia.
Qed.

Lemma binary_round_within (m : positive) (e Kb F : Z) :
  -1074 <= e -> 0 < Kb < 2 ^ 53 -> -1074 <= F <= 900 ->
  Z.pos m * 2 ^ (e + 1074) <= Kb * 2 ^ (F + 1074) ->
  within (Kb * 2 ^ (F + 1074)) (binary_round prec emax false m e).
Proof.
  intros He HK HF Hle. unfold binary_round.
  destruct (shl_align_spec m e (fexp prec emax (Z.pos (digits2_pos m) + e)))
    as [Se Sm].
  destruct (shl_align m e (fexp prec emax (Z.pos (digits2_pos m) + e)))
    as [mz ez]. cbn [fst snd] in Se, Sm.
  rewrite fexp_eq in Se, Sm.
  apply round_aux_within; try assumption; try lia; try discriminate.
  rewrite Sm, <- Z.mul_assoc, <- pow2_add by lia.
  now replace (e - Z.min e (Z.max (Z.pos (digits2_pos m) + e - 53) (-1074))
               + (ez + 1074)) with (e + 1074) by lia.
Qed.

(** *** Integers that are doubles *)

Lemma Zdigits2_unique (m n : Z) : 2 ^ (n - 1) <= m < 2 ^ n -> 1 <= n -> Zdigits2 m = n.
Proof.
  intros [Hl Hu] Hn.
  assert (M : 0 < m) by (pose proof (pow2_pos (n - 1) ltac:(lia)); lia).
  pose proof (Zdigits2_lower m M) as Dl.
  pose proof (Zdigits2_bound m ltac:(lia)) as Du.
  pose proof (Zdigits2_pos m M) as D1.
  assert (Zdigits2 m - 1 < n) by (apply pow2_lt_inv; lia).
  assert (n - 1 < Zdigits2 m) by (apply pow2_lt_inv; lia).
  lia.
Qed.

(** A rounding with nothing to round returns its argument. *)
Lemma round_aux_exact (m e : Z) :
  0 < m -> shift_amount m e = 0 -> e <= 971 ->
  binary_round_aux prec emax false m e loc_Exact = S754_finite false (Z.to_pos m) e.
Proof.
  intros Hm Hs He.
  destruct (round_aux_shape false m e loc_Exact ltac:(lia)) as (m1 & _ & Hex & ->).
  rewrite Hs in *. rewrite Z.pow_0_r, Z.div_1_r in Hex.
  rewrite (Hex (Z.mod_1_r m) eq_refl), Z.add_0_r, Hs, Z.pow_0_r, Z.div_1_r, Z.add_0_r.
  destruct (finish_cases false m e ltac:(lia)) as [[? _]|[(_ & _ & ->)|(_ & ? & _)]];
    [lia | reflexivity | lia].
Qed.

(** An integer below 2^53 converts to itself. *)
Lemma of_Z_exact (k : Z) :
  0 < k < 2 ^ 53 ->
  exists m e, of_Z k = S754_finite false m e /\
              -52 <= e <= 0 /\ Z.pos m = k * 2 ^ (- e).
Proof.
  intros [K0 K1]. destruct k as [|p|p]; try lia.
  unfold of_Z. cbn [binary_normalize]. unfold binary_round.
  pose proof (digits_bounds p) as [Dl Du].
  set (d := Z.pos (digits2_pos p)) in *.
  assert (D53 : d <= 53).
  { assert (d - 1 < 53); [apply pow2_lt_inv; lia | lia]. }
  destruct (shl_align_spec p 0 (fexp prec emax (d + 0))) as [Se Sm].
  destruct (shl_align p 0 (fexp prec emax (d + 0))) as [mz ez].
  cbn [fst snd] in Se, Sm. rewrite fexp_eq in Se, Sm.
  assert (Ez : ez = d - 53) by (unfold d in *; lia).
  replace (0 - Z.min 0 (Z.max (d + 0 - 53) (-1074))) with (53 - d) in Sm
    by (unfold d in *; lia).
  assert (Dz : Zdigits2 (Z.pos mz) = 53).
  { apply Zdigits2_unique; [|lia]. rewrite Sm.
    assert (P : 0 < 2 ^ (53 - d)) by (apply pow2_pos; lia).
    assert (E1 : 2 ^ (53 - 1) = 2 ^ (d - 1) * 2 ^ (53 - d)).
    { rewrite <- pow2_add by (unfold d; lia). f_equal. lia. }
    assert (E2 : 2 ^ 53 = 2 ^ d * 2 ^ (53 - d)).
    { rewrite <- pow2_add by (unfold d; lia). f_equal. lia. }
    rewrite E1, E2. nia. }
  rewrite round_aux_exact.
  - exists mz, ez. split; [reflexivity|]. split; [unfold d in *; lia|].
    rewrite Sm. f_equal. f_equal. lia.
  - lia.
  - unfold shift_amount. rewrite Dz, fexp_eq. unfold d in *. lia.
  - unfold d in *. lia.
Qed.

(** *** Addition *)

Lemma within_weaken (B B' : Z) (f : float) :
  within B f -> B <= B' -> within B' f.
Proof.
  destruct f as [s|s| |[|] m e]; cbn [within]; intros H L; auto.
  split; lia.
Qed.

Lemma add_within (x y : float) (P Q Kb : Z) :
  within P x -> within Q y -> 0 <= P -> 0 <= Q ->
  0 < Kb < 2 ^ 53 -> P + Q <= Kb * 2 ^ (0 + 1074) ->
  within (Kb * 2 ^ (0 + 1074)) (add x y).
Proof.
  intros Hx Hy HP HQ HK HB. unfold add.
  destruct x as [sx|sx| |[|] mx ex]; try contradiction;
    destruct y as [sy|sy| |[|] my ey]; try contradiction.
  - cbn [SFadd]. destruct sx, sy; exact I.
  - cbn [SFadd]. apply (within_weaken Q); [exact Hy | lia].
  - cbn [SFadd]. apply (within_weaken P); [exact Hx | lia].
  - destruct Hx as [Ex Vx], Hy as [Ey Vy]. cbn [SFadd].
    destruct (shl_align_spec mx ex (Z.min ex ey)) as [_ Sx].
    destruct (shl_align_spec my ey (Z.min ex ey)) as [_ Sy].
    rewrite (Z.min_r ex (Z.min ex ey)) in Sx by lia.
    rewrite (Z.min_r ey (Z.min ex ey)) in Sy by lia.
    cbn [cond_Zopp].
    set (ax := fst (shl_align mx ex (Z.min ex ey))) in *.
    set (ay := fst (shl_align my ey (Z.min ex ey))) in *.
    change (Z.pos ax + Z.pos ay) with (Z.pos (ax + ay)).
    cbn [binary_normalize].
    apply binary_round_within; try lia.
    rewrite Pos2Z.inj_add, Sx, Sy, Z.mul_add_distr_r.
    rewrite <- !Z.mul_assoc, <- !pow2_add by lia.
    replace (ex - Z.min ex ey + (Z.min ex ey + 1074)) with (ex + 1074) by lia.
    replace (ey - Z.min ex ey + (Z.min ex ey + 1074)) with (ey + 1074) by lia.
    lia.
Qed.

(** *** Division by a count *)

Lemma new_location_exact (nb k : Z) : is_exact (new_location nb k) = (k =? 0).
Proof.
  unfold new_location, new_location_even, new_location_odd.
  destruct (Z.even nb), (k =? 0); reflexivity.
Qed.

(** The quotient of a division has 53 bits, unless its exponent is already
    the smallest one. *)
Lemma div_quotient_on_grid (m1 m2 : positive) (e1 e2 : Z) :
  let e' := Z.min (fexp prec emax (Zdigits2 (Z.pos m1) + e1 - (Zdigits2 (Z.pos m2) + e2)))
                  (e1 - e2) in
  let q := Z.pos m1 * 2 ^ (e1 - e2 - e') / Z.pos m2 in
  -1074 <= e' ->
  e' <= fexp prec emax (Zdigits2 q + e').
Proof.
  intros e' q He'. rewrite fexp_eq.
  destruct (Z.eq_dec e' (-1074)) as [E|NE]; [lia|].
  pose proof (Zdigits2_lower (Z.pos m1) ltac:(lia)) as L1.
  pose proof (Zdigits2_bound (Z.pos m2) ltac:(lia)) as U2.
  pose proof (Zdigits2_pos (Z.pos m1) ltac:(lia)) as D1.
  pose proof (Zdigits2_pos (Z.pos m2) ltac:(lia)) as D2.
  set (d1 := Zdigits2 (Z.pos m1)) in *. set (d2 := Zdigits2 (Z.pos m2)) in *.
  assert (X : e' <= d1 + e1 - (d2 + e2) - 53).
  { unfold e' in *. rewrite fexp_eq in *. lia. }
  set (s := e1 - e2 - e') in *.
  assert (Hs : 0 <= s) by (unfold s, e'; lia).
  assert (Q : 2 ^ 52 <= q).
  { unfold q. apply Z.div_le_lower_bound; [lia|].
    assert (P1 : 2 ^ (d1 - 1) * 2 ^ s = 2 ^ (d1 - 1 + s - (52 + d2)) * (2 ^ d2 * 2 ^ 52)).
    { rewrite <- !pow2_add by (unfold s; lia). f_equal. lia. }
    assert (P2 : 0 < 2 ^ (d1 - 1 + s - (52 + d2))) by (apply pow2_pos; unfold s; lia).
    assert (P3 : 0 < 2 ^ s) by now apply pow2_pos.
    assert (P4 : 0 < 2 ^ 52) by now apply pow2_pos.
    nia. }
  assert (Dq : 52 < Zdigits2 q).
  { pose proof (Zdigits2_bound q ltac:(lia)) as Uq.
    pose proof (Zdigits2_nonneg q).
    apply pow2_lt_inv; lia. }
  lia.
Qed.

(** Dividing a sum of [k] scores of at most 100 by [k] gives at most 100. *)
Lemma div_within (x : float) (k : Z) :
  1 <= k <= 2 ^ 46 ->
  within (100 * k * 2 ^ 1074) x ->
  within (25 * 2 ^ (2 + 1074)) (div x (of_Z k)).
Proof.
  intros Hk Hx.
  assert (K53 : 0 < k < 2 ^ 53).
  { assert (2 ^ 46 < 2 ^ 53) by reflexivity. lia. }
  destruct (of_Z_exact k K53) as (m2 & e2 & -> & He2 & Hm2).
  unfold div.
  destruct x as [sx|sx| |[|] m1 e1]; try contradiction.
  - exact I.
  - destruct Hx as [He1 V]. cbn [SFdiv].
    pose proof (div_core_spec m1 e1 m2 e2) as C. cbv zeta in C.
    rewrite C. clear C. cbn [xorb].
    pose proof (div_quotient_on_grid m1 m2 e1 e2) as G. cbv zeta in G.
    set (e' := Z.min (fexp prec emax (Zdigits2 (Z.pos m1) + e1 - (Zdigits2 (Z.pos m2) + e2)))
                     (e1 - e2)) in *.
    assert (He' : -1074 <= e').
    { unfold e'. rewrite fexp_eq. lia. }
    set (s := e1 - e2 - e') in *.
    assert (Hs : 0 <= s) by (unfold s, e'; lia).
    set (m' := Z.pos m1 * 2 ^ s) in *.
    pose proof (Z.div_mod m' (Z.pos m2) ltac:(lia)) as Hdm.
    pose proof (Z.mod_pos_bound m' (Z.pos m2) ltac:(lia)) as Hr.
    assert (Hq : 0 <= m' / Z.pos m2).
    { apply Z.div_pos; [|lia]. unfold m'.
      pose proof (pow2_pos s Hs). nia. }
    set (q := m' / Z.pos m2) in *. set (r := m' mod Z.pos m2) in *.
    (* the arithmetic of the quotient, in units *)
    set (A := 2 ^ (e' + 1074)). set (S := 2 ^ s). set (N := 2 ^ (- e2)).
    set (U := 2 ^ 1074).
    assert (PA : 0 < A) by (apply pow2_pos; lia).
    assert (PS : 0 < S) by (apply pow2_pos; lia).
    assert (PN : 0 < N) by (apply pow2_pos; lia).
    assert (PU : 0 < U) by (apply pow2_pos; lia).
    assert (E : 2 ^ (e1 + 1074) * N = S * A).
    { unfold N, S, A. rewrite <- !pow2_add by lia. f_equal. unfold s. lia. }
    assert (EB : 25 * 2 ^ (2 + 1074) = 100 * U).
    { unfold U. rewrite pow2_add by lia. change (2 ^ 2) with 4. lia. }
    fold S in m'. fold N in Hm2. fold U in V.
    assert (KN : 0 < k * N) by nia.
    assert (W : Z.pos m1 * S * A <= 100 * U * (k * N)).
    { replace (Z.pos m1 * S * A) with (Z.pos m1 * (S * A)) by ring.
      rewrite <- E.
      replace (Z.pos m1 * (2 ^ (e1 + 1074) * N))
        with (Z.pos m1 * 2 ^ (e1 + 1074) * N) by ring.
      replace (100 * U * (k * N)) with (100 * k * U * N) by ring.
      apply Z.mul_le_mono_pos_r; assumption. }
    assert (QM : q * (k * N) <= Z.pos m1 * S).
    { rewrite <- Hm2. fold m'. nia. }
    apply round_aux_within; try assumption; try lia.
    + rewrite EB. fold A.
      apply (Z.mul_le_mono_pos_r _ _ (k * N) KN).
      apply Z.le_trans with (m := Z.pos m1 * S * A); [|exact W].
      replace (q * A * (k * N)) with (q * (k * N) * A) by ring.
      apply Z.mul_le_mono_pos_r; assumption.
    + rewrite new_location_exact. intros R0. apply Z.eqb_neq in R0. fold r in R0.
      rewrite EB. fold A.
      apply (Z.mul_lt_mono_pos_r (k * N) _ _ KN).
      apply Z.lt_le_trans with (m := Z.pos m1 * S * A); [|exact W].
      replace (q * A * (k * N)) with (q * (k * N) * A) by ring.
      apply Z.mul_lt_mono_pos_r; [assumption|].
      rewrite <- Hm2. fold m'. nia.
Qed.

(** *** Sums *)

Lemma fold_add_within (l : list float) :
  forall (acc : float) (k : Z),
  0 <= k -> k + Z.of_nat (List.length l) <= 2 ^ 46 ->
  within (100 * k * 2 ^ 1074) acc ->
  Forall (within (100 * 2 ^ 1074)) l ->
  within (100 * (k + Z.of_nat (List.length l)) * 2 ^ 1074) (fold_left add l acc).
Proof.
  induction l as [|x l IH]; intros acc k Hk Hl Hacc Hall.
  - cbn [fold_left List.length]. now rewrite Z.add_0_r.
  - cbn [fold_left].
    replace (k + Z.of_nat (List.length (x :: l)))
      with ((k + 1) + Z.of_nat (List.length l)) in *
      by (cbn [List.length]; lia).
    inversion Hall as [|? ? Hx Hrest]; subst.
    assert (PU : 0 < 2 ^ 1074) by (apply pow2_pos; lia).
    apply IH; try lia; try assumption.
    change (2 ^ 1074) with (2 ^ (0 + 1074)) at 1.
    apply (add_within acc x (100 * k * 2 ^ 1074) (100 * 2 ^ 1074)); try assumption.
    + nia.
    + lia.
    + assert (100 * 2 ^ 46 < 2 ^ 53) by reflexivity. lia.
    + change (2 ^ (0 + 1074)) with (2 ^ 1074). lia.
Qed.

Lemma Forall_firstn {A : Type} (P : A -> Prop) (n : nat) (l : list A) :
  Forall P l -> Forall P (firstn n l).
Proof.
  intros H. rewrite <- (firstn_skipn n l) in H. now apply Forall_app in H.
Qed.

End FloatBound.

(* ===================================================================== *)
(** ** The range of the final score *)
(* ===================================================================== *)

Module RangeClaims.

Import Float Dec Score ScoreFacts FloatFacts DecFacts ScoreSpec ScoreClaims FloatBound.

(** A valid score between 0 and 100: a well-formed finite double whose
    exact value lies in that interval (either zero counts). *)
Definition in_range_0_100 (f : float) : Prop :=
  valid f = true /\ is_finite f = true /\ 0 <= units f <= 100 * unit_scale.

Lemma in_range_within (f : float) :
  in_range_0_100 f -> within (100 * 2 ^ 1074) f.
Proof.
  intros (V & F & L & U). destruct f as [s|s| |s m e]; try discriminate; [exact I|].
  unfold valid, valid_binary, bounded, canonical_mantissa in V.
  apply andb_prop in V as [C _]. apply Z.eqb_eq in C. rewrite fexp_eq in C.
  assert (E : -1074 <= e) by lia.
  assert (P : 0 < 2 ^ (e + 1074)) by (apply pow2_pos; lia).
  cbn [units] in L, U. unfold unit_scale in U.
  destruct s; cbn [cond_Zopp] in L, U; cbn [within]; [nia | split; assumption].
Qed.

Lemma rounded_within_100 (avg : float) :
  within (25 * 2 ^ (2 + 1074)) avg ->
  exists r, round_half_up_int avg = Return r /\ 0 <= r <= 100.
Proof.
  intros W. destruct avg as [s|s| |[|] m e]; try contradiction.
  - exists 0. split; [apply round_half_up_int_zero | lia].
  - destruct W as [E V].
    assert (EB : 25 * 2 ^ (2 + 1074) = 100 * unit_scale).
    { unfold unit_scale. rewrite pow2_add by lia. change (2 ^ 2) with 4. lia. }
    rewrite EB in V.
    assert (PU : 0 < unit_scale) by (apply pow2_pos; lia).
    rewrite round_half_up_int_finite. cbv zeta.
    pose proof (nearest_half_up_lower m e) as L.
    assert (R : nearest_half_up m e < 101).
    { rewrite nearest_half_up_units by lia.
      apply Z.div_lt_upper_bound; lia. }
    assert (T : 101 < 10 ^ 28) by reflexivity.
    destruct (Z.leb_spec (10 ^ 28) (nearest_half_up m e)); [lia|].
    exists (nearest_half_up m e). cbn [cond_Zopp]. split; [reflexivity | lia].
Qed.

(** C10.  When every valid score is a double between 0 and 100, the
    function returns a score between 0 and 100 although it never clamps.
    (The bound on the length keeps every partial sum below 2^53; a list
    that long does not fit in memory.) *)
Theorem final_score_within_0_100 (scores : list pyobj) (top_n : Z)
    (valid : list float) :
  1 <= top_n ->
  len scores <= 2 ^ 46 ->
  comprehension scores = Return valid ->
  Forall in_range_0_100 valid ->
  exists r, calculate_final_score scores top_n = Return r /\ 0 <= r <= 100.
Proof.
  intros N L C F.
  destruct valid as [|f fs] eqn:V.
  { exists 0. split; [|lia].
    unfold calculate_final_score. destruct (is_empty scores); [reflexivity|].
    now rewrite C. }
  rewrite <- V in *.
  assert (NE : valid <> []) by (rewrite V; discriminate).
  rewrite (calculate_final_score_nonempty scores top_n valid C NE N).
  apply rounded_within_100. unfold selected_mean.
  set (top := top_scores_of valid top_n).
  assert (Lv : len valid <= len scores).
  { apply comprehension_returns in C. rewrite C. unfold len.
    rewrite length_map. apply inj_le, filter_length_le. }
  assert (Lt : len top = Z.min top_n (len valid)).
  { unfold top, top_scores_of. rewrite slice_to_length by lia.
    unfold len. now rewrite sort_reverse_length. }
  assert (L1 : 1 <= len valid).
  { unfold len. destruct valid; [congruence | cbn [List.length]; lia]. }
  assert (Ft : Forall (within (100 * 2 ^ 1074)) top).
  { unfold top, top_scores_of. rewrite slice_to_firstn by lia.
    apply Forall_firstn.
    eapply Permutation_Forall; [symmetry; apply sort_reverse_perm|].
    eapply Forall_impl; [|exact F]. intros a. apply in_range_within. }
  apply div_within; [lia|].
  unfold sum.
  replace (len top) with (0 + Z.of_nat (List.length top)) by (unfold len; lia).
  apply fold_add_within; try assumption; try (unfold len in *; lia).
  exact I.
Qed.

Lemma final_score_within_0_100_witness :
  let scores := [PyInt 100; PyStr "99"; PyNone; PyFloat (of_Z 100); PyInt 0] in
  Forall in_range_0_100 [of_Z 100; of_Z 99; of_Z 100; of_Z 0] /\
  calculate_final_score scores 3 = Return 100 /\
  exists r, calculate_final_score scores 3 = Return r /\ 0 <= r <= 100.
Proof.
  intros scores.
  assert (F : Forall in_range_0_100 [of_Z 100; of_Z 99; of_Z 100; of_Z 0]).
  { repeat constructor; vm_compute; congruence. }
  split; [exact F|]. split; [vm_compute; reflexivity|].
  apply (final_score_within_0_100 scores 3 [of_Z 100; of_Z 99; of_Z 100; of_Z 0]).
  - lia.
  - vm_compute. discriminate.
  - reflexivity.
  - exact F.
Defined.

End RangeClaims.

(* ===================================================================== *)
(** ** Claims about the order of the result table *)
(* ===================================================================== *)

Module SeatsClaims.

Import Score Seats.

Section Ascending.

Context {row K : Type}.
Variable key : row -> K.
Variable lt : K -> K -> bool.



Variable le : K -> K -> Prop.
Hypothesis lt_le : forall a b, lt a b = true -> le a b.
Hypothesis not_lt_le : forall a b, lt a b = false -> le b a.




End Ascending.







(** Seat numbers are read as [int] reads them: digits of other scripts and
    white space around them count, so the full-width "９" is the integer 9
    and sorts before "10". *)
Example seat_numbers_of_other_scripts :
  astype_int "９" = Some 9 /\ astype_int " ١٢　" = Some 12 /\
  order_rows (fun t => t) ["10"; "９"; " 1 "]%string = [" 1 "; "９"; "10"]%string.
Proof. vm_compute. repeat split; reflexivity. Qed.

End SeatsClaims.

(* ===================================================================== *)
(** ** Claims about the per-file loop *)
(* ===================================================================== *)

Module BatchClaims.

Import Score Batch.

Section MainLoop.

Variable json_loads : string -> string + pyobj.
Variable threshold_count : Z.

Abbreviation process_image_with_gemini := (process_image_with_gemini json_loads).
Abbreviation extraction_failure := (extraction_failure json_loads).
Abbreviation extraction_fails := (extraction_fails json_loads).
Abbreviation step := (step json_loads threshold_count).
Abbreviation loop := (loop json_loads threshold_count).
Abbreviation process_batch := (process_batch json_loads threshold_count).

(** *** A failed extraction is reported and skipped *)

Lemma process_image_failure (u : upload) (msg : string) :
  extraction_failure u = Some msg ->
  process_image_with_gemini u = error_dict msg.
Proof.
  unfold extraction_failure, process_image_with_gemini.
  destruct (reply u) as [m|text].
  - intros H. now inversion H.
  - destruct (json_loads (clean text)) as [m|data]; intros H; now inversion H.
Qed.

Lemma step_failure (total : Z) (st : state) (i : Z) (u : upload) (msg : string) :
  image_opens u = true ->
  extraction_failure u = Some msg ->
  step total st i u
    = Return {| results := results st;
                screen := screen st ++ [Info (filename u);
                                        Error (filename u) (PyStr msg)] |}.
Proof.
  intros O F. unfold step. rewrite O. cbn [negb].
  rewrite (process_image_failure u msg F).
  cbn. unfold show. cbn. now rewrite <- app_assoc.
Qed.

(** The table after one iteration depends on the table before it and on
    the file, not on the screen or on the counters. *)
Definition same_table (c c' : result state) : Prop :=
  match c, c' with
  | Return a, Return b => results a = results b
  | Raise e, Raise e' => e = e'
  | _, _ => False
  end.

Lemma same_table_table (c c' : result state) :
  same_table c c' -> table c = table c'.
Proof.
  destruct c, c'; cbn; intros H; try contradiction; congruence.
Qed.

Lemma step_same_table (total total' : Z) (st st' : state) (i i' : Z) (u : upload) :
  results st = results st' ->
  same_table (step total st i u) (step total' st' i' u).
Proof.
  intros R. unfold step.
  destruct (negb (image_opens u)); [reflexivity|].
  destruct (py_in "error" (process_image_with_gemini u)) as [[|]|e]; cbn [bind];
    [| |reflexivity].
  - destruct (getitem (process_image_with_gemini u) "error"); cbn; congruence.
  - destruct (get (process_image_with_gemini u) "seat_number" unknown_seat);
      cbn [bind]; [|reflexivity].
    destruct (get (process_image_with_gemini u) "valid_scores" (PyList []));
      cbn [bind]; [|reflexivity].
    destruct (calculate_final_score_any _ threshold_count); cbn; congruence.
Qed.

Lemma loop_same_table (uploads : list upload) :
  forall total total' st st' i i',
  results st = results st' ->
  same_table (loop total st i uploads)
             (loop total' st' i'
                (filter (fun u => negb (extraction_fails u)) uploads)).
Proof.
  induction uploads as [|u rest IH]; intros total total' st st' i i' R.
  - exact R.
  - cbn [filter loop]. destruct (extraction_fails u) eqn:X; cbn [negb].
    + unfold extraction_fails in X. apply andb_prop in X as [O F].
      destruct (extraction_failure u) as [msg|] eqn:E; [|discriminate].
      rewrite (step_failure total st i u msg O E). cbn [bind].
      apply IH. exact R.
    + cbn [loop].
      pose proof (step_same_table total total' st st' i i' u R) as S.
      destruct (step total st i u) as [a|e], (step total' st' i' u) as [b|e'];
        cbn [bind]; try contradiction.
      * apply IH. exact S.
      * exact S.
Qed.

Lemma step_screen (total : Z) (st st' : state) (i : Z) (u : upload) (ev : ui_event) :
  step total st i u = Return st' -> In ev (screen st) -> In ev (screen st').
Proof.
  unfold step. intros H I.
  destruct (negb (image_opens u)); [discriminate|].
  destruct (py_in "error" (process_image_with_gemini u)) as [[|]|e]; cbn [bind] in H;
    [| |discriminate].
  - destruct (getitem _ _); cbn in H; [|discriminate].
    inversion H. cbn. rewrite !in_app_iff. auto.
  - destruct (get _ "seat_number" _); cbn [bind] in H; [|discriminate].
    destruct (get _ "valid_scores" _); cbn [bind] in H; [|discriminate].
    destruct (calculate_final_score_any _ _); cbn in H; [|discriminate].
    inversion H. cbn. rewrite !in_app_iff. auto.
Qed.

Lemma loop_screen (uploads : list upload) :
  forall total st st' i ev,
  loop total st i uploads = Return st' -> In ev (screen st) -> In ev (screen st').
Proof.
  induction uploads as [|u rest IH]; intros total st st' i ev H I; cbn [loop] in H.
  - inversion H. now subst.
  - destruct (step total st i u) as [a|e] eqn:S; cbn [bind] in H; [|discriminate].
    eapply IH; [exact H|]. eapply step_screen; eauto.
Qed.

Lemma loop_reports (uploads : list upload) :
  forall total st st' i u msg,
  loop total st i uploads = Return st' ->
  In u uploads -> image_opens u = true -> extraction_failure u = Some msg ->
  In (Error (filename u) (PyStr msg)) (screen st').
Proof.
  induction uploads as [|v rest IH]; intros total st st' i u msg H I O F;
    [contradiction|].
  cbn [loop] in H.
  destruct (step total st i v) as [a|e] eqn:S; cbn [bind] in H; [|discriminate].
  destruct I as [->|I].
  - rewrite (step_failure total st i u msg O F) in S. inversion S; subst a.
    eapply loop_screen; [exact H|]. cbn. rewrite in_app_iff. right. cbn. auto.
  - eapply IH; eauto.
Qed.

(** C9.  A file whose extraction fails (the API call raises, or the
    reply is not JSON once the code fences are stripped) gets an error
    message of its own and no record, and the loop goes on with the next
    file: the table of a batch is the table of the batch without those
    files, and the batch returns exactly when it returns without them. *)
Theorem extraction_failure_is_reported_and_skipped (uploads : list upload) :
  (forall total st i u msg,
     image_opens u = true -> extraction_failure u = Some msg ->
     step total st i u
       = Return {| results := results st;
                   screen := screen st ++ [Info (filename u);
                                           Error (filename u) (PyStr msg)] |}) /\
  table (process_batch uploads)
    = table (process_batch (filter (fun u => negb (extraction_fails u)) uploads)) /\
  (forall st u msg,
     process_batch uploads = Return st ->
     In u uploads -> image_opens u = true -> extraction_failure u = Some msg ->
     In (Error (filename u) (PyStr msg)) (screen st)).
Proof.
  split; [exact step_failure|]. split.
  - apply same_table_table. unfold process_batch. now apply loop_same_table.
  - intros st u msg H. unfold process_batch in H. eapply loop_reports; eauto.
Qed.

End MainLoop.

(** A batch of three files: the API fails on the first, the second reply
    is not JSON, the third is read. *)
Definition sample_json_loads (text : string) : string + pyobj :=
  if String.eqb text "{ok}"
  then inr (PyDict [("seat_number"%string, PyStr "7");
                    ("valid_scores"%string, PyList [PyInt 88; PyInt 89])])
  else inl "Expecting value"%string.

Definition sample_batch : list upload :=
  [ {| filename := "a.jpg"; image_opens := true; reply := inl "503 unavailable"%string |};
    {| filename := "b.jpg"; image_opens := true; reply := inr "sorry"%string |};
    {| filename := "c.jpg"; image_opens := true;
       reply := inr ("```json" ++ "{ok}" ++ "```")%string |} ].

Lemma extraction_failure_is_reported_and_skipped_witness :
  table (process_batch sample_json_loads 12 sample_batch)
    = Some [ {| source := "c.jpg"; seat_number := PyStr "7"; final_score := 89;
                raw_scores := PyList [PyInt 88; PyInt 89] |} ] /\
  forall st,
    process_batch sample_json_loads 12 sample_batch = Return st ->
    In (Error "a.jpg" (PyStr "503 unavailable")) (screen st) /\
    In (Error "b.jpg" (PyStr "Expecting value")) (screen st).
Proof.
  pose proof (extraction_failure_is_reported_and_skipped
                sample_json_loads 12 sample_batch) as (_ & T & R).
  split.
  - rewrite T. vm_compute. reflexivity.
  - intros st H. split.
    + apply (R st {| filename := "a.jpg"; image_opens := true;
                     reply := inl "503 unavailable"%string |} _ H);
        [cbn; auto | reflexivity | reflexivity].
    + apply (R st {| filename := "b.jpg"; image_opens := true;
                     reply := inr "sorry"%string |} _ H);
        [cbn; auto | reflexivity | reflexivity].
Defined.

Example fences_are_stripped :
  clean ("```json" ++ String "010" "{ok}" ++ String "010" "```")%string = "{ok}"%string.
Proof. reflexivity. Qed.

End BatchClaims.

(* ===================================================================== *)
(** ** Further properties of [calculate_final_score] *)
(* ===================================================================== *)

Module ScoreExtras.

Import Float Dec Score ScoreFacts FloatFacts DecFacts ScoreSpec OrderFacts.

(** The function past its two guards, for any [top_n] (line 71 onwards). *)
Lemma calculate_final_score_valid (scores : list pyobj) (top_n : Z)
    (valid : list float) :
  comprehension scores = Return valid -> valid <> [] ->
  calculate_final_score scores top_n
    = (avg <- average (top_scores_of valid top_n) ;; round_half_up_int avg).
Proof.
  intros C V. unfold calculate_final_score.
  destruct scores as [|s rest]; [simpl in C; inversion C; congruence|].
  cbn [is_empty]. rewrite C. cbn [bind].
  destruct valid; [congruence | reflexivity].
Qed.

Lemma average_selected (valid : list float) (top_n : Z) :
  valid <> [] -> 1 <= top_n ->
  average (top_scores_of valid top_n) = Return (selected_mean valid top_n).
Proof.
  intros V N. unfold average, truediv, selected_mean.
  set (top := top_scores_of valid top_n).
  assert (L : len top = Z.min top_n (len (sort_reverse valid))).
  { unfold top, top_scores_of. apply slice_to_length. lia. }
  assert (L' : 1 <= len (sort_reverse valid)).
  { unfold len. rewrite sort_reverse_length.
    destruct valid; [congruence | cbn [List.length]; lia]. }
  destruct (Z.eqb_spec (len top) 0); [lia | reflexivity].
Qed.

(** *** Rounding of negative means *)

Lemma nearest_half_up_half (m : positive) (e X : Z) :
  Z.pos m < 2 ^ 53 -> -1074 <= e -> 0 <= X ->
  2 * (Z.pos m * 2 ^ (e + 1074)) = (2 * X + 1) * unit_scale ->
  nearest_half_up m e = X + 1 /\ X + 1 < 10 ^ 28.
Proof.
  intros Hm He HX HU.
  assert (Pe : 0 < 2 ^ (e + 1074)) by (apply pow2_pos; lia).
  unfold nearest_half_up.
  destruct (Z.leb_spec 0 e) as [E0|E0].
  - exfalso. unfold unit_scale in HU.
    replace (e + 1074) with (1074 + e) in HU by lia.
    rewrite Z.pow_add_r in HU by lia.
    assert (P : 0 < 2 ^ 1074) by (apply pow2_pos; lia).
    assert (2 * (Z.pos m * 2 ^ e) = 2 * X + 1) by nia. lia.
  - assert (Pn : 0 < 2 ^ (- e)) by (apply pow2_pos; lia).
    assert (S1 : unit_scale = 2 ^ (e + 1074) * 2 ^ (- e)).
    { unfold unit_scale. rewrite <- Z.pow_add_r by lia. f_equal. lia. }
    assert (E2 : 2 * Z.pos m = (2 * X + 1) * 2 ^ (- e)) by (rewrite S1 in HU; nia).
    assert (S2 : 2 ^ (1 - e) = 2 * 2 ^ (- e)).
    { rewrite <- Z.pow_succ_r by lia. f_equal. lia. }
    assert (S3 : 2 <= 2 ^ (- e)).
    { change 2 with (2 ^ 1) at 1. apply pow2_le. lia. }
    split.
    + rewrite S2, E2. symmetry. apply Z.div_unique with (r := 0); nia.
    + assert (2 * (2 * X + 1) < 2 ^ 54) by (change (2 ^ 54) with (2 * 2 ^ 53); nia).
      assert (2 ^ 54 < 10 ^ 28) by reflexivity. lia.
Qed.

(** X1.  A negative mean of exactly [-(X + 1/2)] is rounded away from
    zero as well: the function returns [-(X + 1)]. *)
Theorem negative_half_rounds_away_from_zero (scores : list pyobj) (top_n : Z)
    (valid : list float) (X : Z) :
  1 <= top_n ->
  comprehension scores = Return valid ->
  valid <> [] ->
  0 <= X ->
  2 * units (selected_mean valid top_n) = - (2 * X + 1) * unit_scale ->
  calculate_final_score scores top_n = Return (- (X + 1)).
Proof.
  intros N C V HX HU.
  rewrite (calculate_final_score_valid scores top_n valid C V).
  rewrite (average_selected valid top_n V N). cbn [bind].
  assert (P : 0 < unit_scale) by (apply pow2_pos; lia).
  destruct (selected_mean valid top_n) as [s|s| |s m e] eqn:M;
    try (cbn [units] in HU; nia).
  unfold selected_mean in M. apply div_finite_bounded in M as [Hm He].
  assert (Pe : 0 < 2 ^ (e + 1074)) by (apply pow2_pos; lia).
  destruct s; cbn [units cond_Zopp] in HU; [|nia].
  destruct (nearest_half_up_half m e X Hm ltac:(lia) HX ltac:(lia)) as [R B].
  rewrite round_half_up_int_finite. cbv zeta. rewrite R.
  destruct (Z.leb_spec (10 ^ 28) (X + 1)); [lia | reflexivity].
Qed.

Lemma negative_half_rounds_away_from_zero_witness :
  2 * units (selected_mean [of_Z (-1); of_Z (-2)] 2) = - (2 * 1 + 1) * unit_scale /\
  calculate_final_score [PyInt (-1); PyInt (-2)] 2 = Return (- (1 + 1)).
Proof.
  split; [vm_compute; reflexivity|].
  apply (negative_half_rounds_away_from_zero
           [PyInt (-1); PyInt (-2)] 2 [of_Z (-1); of_Z (-2)] 1).
  - lia.
  - reflexivity.
  - discriminate.
  - lia.
  - vm_compute. reflexivity.
Defined.

(** *** The result is the integer nearest to the mean *)

(** X2.  Whenever the function returns on a list with a valid score, the
    mean it computed is a finite double and the returned integer lies
    within one half of it. *)
Theorem result_is_within_half_of_the_mean (scores : list pyobj) (top_n : Z)
    (valid : list float) (r : Z) :
  1 <= top_n ->
  comprehension scores = Return valid ->
  valid <> [] ->
  calculate_final_score scores top_n = Return r ->
  is_finite (selected_mean valid top_n) = true /\
  Z.abs (2 * (r * unit_scale - units (selected_mean valid top_n))) <= unit_scale.
Proof.
  intros N C V R.
  rewrite (calculate_final_score_valid scores top_n valid C V) in R.
  rewrite (average_selected valid top_n V N) in R. cbn [bind] in R.
  assert (P : 0 < unit_scale) by (apply pow2_pos; lia).
  destruct (selected_mean valid top_n) as [s|s| |s m e] eqn:M;
    try discriminate.
  - rewrite round_half_up_int_zero in R. inversion R; subst r.
    split; [reflexivity|]. cbn [units]. lia.
  - split; [reflexivity|].
    unfold selected_mean in M. apply div_finite_bounded in M as [Hm He].
    rewrite round_half_up_int_finite in R. cbv zeta in R.
    destruct (10 ^ 28 <=? nearest_half_up m e); [discriminate|].
    inversion R; subst r. clear R.
    rewrite ScoreClaims.nearest_half_up_units by lia.
    assert (Pe : 0 < 2 ^ (e + 1074)) by (apply pow2_pos; lia).
    cbn [units].
    set (u := Z.pos m * 2 ^ (e + 1074)) in *.
    assert (Hu : 0 < u) by (unfold u; nia).
    pose proof (Z.div_mod (2 * u + unit_scale) (2 * unit_scale) ltac:(lia)) as D.
    pose proof (Z.mod_pos_bound (2 * u + unit_scale) (2 * unit_scale) ltac:(lia)) as B.
    set (q := (2 * u + unit_scale) / (2 * unit_scale)) in *.
    destruct s; cbn [cond_Zopp]; lia.
Qed.

Lemma result_is_within_half_of_the_mean_witness :
  let valid := [of_Z 90; of_Z 85; of_Z 70] in
  calculate_final_score [PyInt 90; PyInt 85; PyStr "70"] 3 = Return 82 /\
  Z.abs (2 * (82 * unit_scale - units (selected_mean valid 3))) <= unit_scale.
Proof.
  intros valid.
  assert (R : calculate_final_score [PyInt 90; PyInt 85; PyStr "70"] 3 = Return 82)
    by (vm_compute; reflexivity).
  split; [exact R|].
  apply (result_is_within_half_of_the_mean
           [PyInt 90; PyInt 85; PyStr "70"] 3 valid 82).
  - lia.
  - reflexivity.
  - discriminate.
  - exact R.
Defined.

(** *** What the function can raise *)





(** *** Thresholds outside the expected range *)

(** X4.  The function itself does not guard [top_n]: with a valid score
    present, [top_n = 0], or a negative [top_n] that cuts off at least as
    many scores as there are, leaves an empty selection and the mean raises
    ZeroDivisionError. *)
Theorem empty_selection_divides_by_zero (scores : list pyobj) (top_n : Z)
    (valid : list float) :
  comprehension scores = Return valid ->
  valid <> [] ->
  top_n = 0 \/ len valid <= - top_n ->
  calculate_final_score scores top_n = Raise ZeroDivisionError.
Proof.
  intros C V H.
  rewrite (calculate_final_score_valid scores top_n valid C V).
  assert (E : top_scores_of valid top_n = []).
  { unfold top_scores_of, slice_to.
    destruct (Z.leb_spec 0 top_n) as [P|P].
    - assert (top_n = 0).
      { destruct H as [|H]; [assumption|]. unfold len in H. lia. }
      subst. reflexivity.
    - destruct H as [|H]; [lia|].
      unfold len in H. rewrite sort_reverse_length.
      replace (Z.to_nat (Z.of_nat (List.length valid) + top_n)) with O by lia.
      reflexivity. }
  rewrite E. reflexivity.
Qed.

Lemma empty_selection_divides_by_zero_witness :
  len [of_Z 90; of_Z 85] <= - (-2) /\
  calculate_final_score [PyInt 90; PyNone; PyInt 85] (-2) = Raise ZeroDivisionError.
Proof.
  split; [vm_compute; discriminate|].
  apply (empty_selection_divides_by_zero [PyInt 90; PyNone; PyInt 85] (-2)
           [of_Z 90; of_Z 85]).
  - reflexivity.
  - discriminate.
  - right. vm_compute. discriminate.
Defined.

(** X5.  Once the threshold reaches the number of elements that pass the
    filter, raising it further changes nothing: every such threshold gives
    the same outcome, the rounded mean of all valid scores. *)
Theorem threshold_beyond_count_is_irrelevant (scores : list pyobj) (n n' : Z) :
  len (filter keeps scores) <= n ->
  len (filter keeps scores) <= n' ->
  calculate_final_score scores n = calculate_final_score scores n'.
Proof.
  intros H H'.
  destruct (comprehension scores) as [valid|e] eqn:C.
  - destruct valid as [|f fs] eqn:V.
    + unfold calculate_final_score. destruct (is_empty scores); [reflexivity|].
      now rewrite C.
    + rewrite <- V in *. assert (NE : valid <> []) by (rewrite V; discriminate).
      assert (L : len valid = len (filter keeps scores)).
      { apply comprehension_returns in C. rewrite C. unfold len.
        now rewrite length_map. }
      rewrite !(calculate_final_score_valid scores _ valid C NE).
      unfold top_scores_of.
      rewrite !slice_to_all;
        try (unfold len in *; rewrite sort_reverse_length; lia).
      reflexivity.
  - unfold calculate_final_score. destruct (is_empty scores); [reflexivity|].
    now rewrite C.
Qed.

Lemma threshold_beyond_count_is_irrelevant_witness :
  len (filter keeps [PyInt 88; PyStr "x"; PyInt 89]) <= 2 /\
  calculate_final_score [PyInt 88; PyStr "x"; PyInt 89] 2
    = calculate_final_score [PyInt 88; PyStr "x"; PyInt 89] 12.
Proof.
  split; [vm_compute; discriminate|].
  apply (threshold_beyond_count_is_irrelevant [PyInt 88; PyStr "x"; PyInt 89] 2 12);
    vm_compute; discriminate.
Defined.

(** *** The selected scores are the largest ones *)

Lemma strongly_sorted_app {A : Type} (R : A -> A -> Prop) (l1 l2 : list A) :
  StronglySorted R (l1 ++ l2) ->
  forall a b, In a l1 -> In b l2 -> R a b.
Proof.
  induction l1 as [|x l1 IH]; intros S a b Ia Ib; [contradiction|].
  cbn [app] in S. inversion S as [|? ? S' F]; subst.
  destruct Ia as [->|Ia].
  - rewrite Forall_forall in F. apply F. apply in_or_app. now right.
  - now apply IH.
Qed.

(** X6.  Without NaN among the valid scores, the selection and the scores
    left out together are the valid scores, and no score left out is
    greater than a selected one. *)
Theorem selected_scores_dominate_the_rest (valid : list float) (top_n : Z) :
  0 <= top_n ->
  Forall (fun f => is_nan f = false) valid ->
  let top_scores := top_scores_of valid top_n in
  let left_out := skipn (Z.to_nat top_n) (sort_reverse valid) in
  Permutation (top_scores ++ left_out) valid /\
  forall a b, In a top_scores -> In b left_out -> ltb a b = false.
Proof.
  intros N F top_scores left_out.
  assert (E : top_scores ++ left_out = sort_reverse valid).
  { unfold top_scores, left_out, top_scores_of.
    rewrite slice_to_firstn by lia. apply firstn_skipn. }
  split.
  - rewrite E. apply sort_reverse_perm.
  - apply (strongly_sorted_app (fun a b => ltb a b = false)).
    rewrite E. now apply sort_reverse_strongly_descending.
Qed.

Lemma selected_scores_dominate_the_rest_witness :
  let valid := [of_Z 70; of_Z 90; of_Z 85] in
  top_scores_of valid 2 = [of_Z 90; of_Z 85] /\
  forall a b, In a (top_scores_of valid 2) ->
              In b (skipn 2 (sort_reverse valid)) -> ltb a b = false.
Proof.
  intros valid. split; [reflexivity|].
  apply (selected_scores_dominate_the_rest valid 2).
  - lia.
  - repeat constructor.
Defined.

(** *** Different spellings of the same score *)

Lemma comprehension_replace (a b : pyobj) (l1 l2 : list pyobj) :
  str_raises a = str_raises b ->
  keeps a = true -> keeps b = true -> to_float a = to_float b ->
  comprehension (l1 ++ a :: l2) = comprehension (l1 ++ b :: l2).
Proof.
  intros R Ka Kb T. induction l1 as [|x l1 IH]; cbn [app comprehension].
  - now rewrite R, Ka, Kb, T.
  - now rewrite IH.
Qed.

Lemma calculate_final_score_replace (a b : pyobj) (l1 l2 : list pyobj) (top_n : Z) :
  str_raises a = str_raises b ->
  keeps a = true -> keeps b = true -> to_float a = to_float b ->
  calculate_final_score (l1 ++ a :: l2) top_n
    = calculate_final_score (l1 ++ b :: l2) top_n.
Proof.
  intros R Ka Kb T. unfold calculate_final_score.
  rewrite (comprehension_replace a b l1 l2 R Ka Kb T).
  now destruct l1.
Qed.

Lemma numeral_value_lower (t : string) (acc : Z) :
  all_ascii_digits t = true -> 0 <= acc -> 0 <= numeral_value acc t.
Proof.
  revert acc. induction t as [|c t IH]; intros acc H A; cbn [numeral_value];
    [exact A|].
  cbn [all_ascii_digits] in H. apply andb_prop in H as [D H].
  apply IH; [exact H|].
  unfold is_ascii_digit in D. apply andb_prop in D as [D _].
  apply N.leb_le in D. lia.
Qed.

Lemma of_int_small (z : Z) :
  0 <= z < 2 ^ 53 -> of_int z = Return (of_Z z).
Proof.
  intros [L U]. unfold of_int.
  destruct (Z.eq_dec z 0) as [->|NZ]; [reflexivity|].
  destruct (FloatBound.of_Z_exact z ltac:(lia)) as (m & e & -> & _). reflexivity.
Qed.

(** X7.  A string of ASCII digits counts exactly like the integer it
    spells (below 2^53), and a boolean exactly like 0 or 1, wherever it
    stands in the list. *)
Theorem digit_strings_and_booleans_count_as_integers (l1 l2 : list pyobj)
    (top_n : Z) :
  (forall t, t <> EmptyString -> all_ascii_digits t = true ->
     numeral_value 0 t < 2 ^ 53 ->
     calculate_final_score (l1 ++ PyStr t :: l2) top_n
       = calculate_final_score (l1 ++ PyInt (numeral_value 0 t) :: l2) top_n) /\
  (forall b : bool,
     calculate_final_score (l1 ++ PyBool b :: l2) top_n
       = calculate_final_score (l1 ++ PyInt (if b then 1 else 0) :: l2) top_n).
Proof.
  split.
  - intros t NE D U.
    pose proof (numeral_value_lower t 0 D ltac:(lia)) as L.
    apply calculate_final_score_replace.
    + symmetry. apply str_raises_small.
      assert (2 ^ 53 < 2 ^ 1024) by (vm_compute; reflexivity). lia.
    + unfold keeps. cbn [str_isdigit isinstance_int_float]. rewrite orb_false_r.
      now apply isdigit_ascii.
    + unfold keeps. cbn [isinstance_int_float]. apply orb_true_r.
    + cbn [to_float]. rewrite of_int_small by lia.
      now apply float_of_str_ascii.
  - intros b. destruct b; apply calculate_final_score_replace; reflexivity.
Qed.

Lemma digit_strings_and_booleans_count_as_integers_witness :
  numeral_value 0 "070" = 70 /\
  calculate_final_score ([PyInt 90] ++ PyStr "070" :: [PyNone; PyInt 85]) 3
    = calculate_final_score ([PyInt 90] ++ PyInt (numeral_value 0 "070")
                               :: [PyNone; PyInt 85]) 3.
Proof.
  split; [reflexivity|].
  apply (proj1 (digit_strings_and_booleans_count_as_integers
                  [PyInt 90] [PyNone; PyInt 85] 3) "070"%string).
  - discriminate.
  - reflexivity.
  - reflexivity.
Defined.

End ScoreExtras.

(* ===================================================================== *)
(** ** Marks within a scale never raise and stay within the scale *)
(* ===================================================================== *)

Module RangeExtras.

Import Float Dec Score ScoreFacts FloatFacts DecFacts ScoreSpec FloatBound ScoreExtras.

(** The quotient of at most [M * k] by the count [k] is at most [M]. *)
Lemma div_within_scale (x : float) (M k : Z) :
  1 <= k -> 1 <= M -> M * k < 2 ^ 53 ->
  within (M * k * 2 ^ 1074) x ->
  within (M * 2 ^ (0 + 1074)) (div x (of_Z k)).
Proof.
  intros Hk HM HMk Hx.
  assert (K53 : 0 < k < 2 ^ 53) by nia.
  assert (M53 : 0 < M < 2 ^ 53) by nia.
  destruct (of_Z_exact k K53) as (m2 & e2 & -> & He2 & Hm2).
  unfold div.
  destruct x as [sx|sx| |[|] m1 e1]; try contradiction.
  - exact I.
  - destruct Hx as [He1 V]. cbn [SFdiv].
    pose proof (div_core_spec m1 e1 m2 e2) as C. cbv zeta in C.
    rewrite C. clear C. cbn [xorb].
    pose proof (div_quotient_on_grid m1 m2 e1 e2) as G. cbv zeta in G.
    set (e' := Z.min (fexp prec emax (Zdigits2 (Z.pos m1) + e1 - (Zdigits2 (Z.pos m2) + e2)))
                     (e1 - e2)) in *.
    assert (He' : -1074 <= e').
    { unfold e'. rewrite fexp_eq. lia. }
    set (s := e1 - e2 - e') in *.
    assert (Hs : 0 <= s) by (unfold s, e'; lia).
    set (m' := Z.pos m1 * 2 ^ s) in *.
    pose proof (Z.div_mod m' (Z.pos m2) ltac:(lia)) as Hdm.
    pose proof (Z.mod_pos_bound m' (Z.pos m2) ltac:(lia)) as Hr.
    assert (Hq : 0 <= m' / Z.pos m2).
    { apply Z.div_pos; [|lia]. unfold m'.
      pose proof (pow2_pos s Hs). nia. }
    set (q := m' / Z.pos m2) in *. set (r := m' mod Z.pos m2) in *.
    set (A := 2 ^ (e' + 1074)). set (S := 2 ^ s). set (N := 2 ^ (- e2)).
    change (0 + 1074) with 1074.
    set (U := 2 ^ 1074) in *.
    assert (PA : 0 < A) by (apply pow2_pos; lia).
    assert (PS : 0 < S) by (apply pow2_pos; lia).
    assert (PN : 0 < N) by (apply pow2_pos; lia).
    assert (PU : 0 < U) by (apply pow2_pos; lia).
    assert (E : 2 ^ (e1 + 1074) * N = S * A).
    { unfold N, S, A. rewrite <- !pow2_add by lia. f_equal. unfold s. lia. }
    fold S in m'. fold N in Hm2.
    assert (KN : 0 < k * N) by nia.
    assert (W : Z.pos m1 * S * A <= M * U * (k * N)).
    { replace (Z.pos m1 * S * A) with (Z.pos m1 * (S * A)) by ring.
      rewrite <- E.
      replace (Z.pos m1 * (2 ^ (e1 + 1074) * N))
        with (Z.pos m1 * 2 ^ (e1 + 1074) * N) by ring.
      replace (M * U * (k * N)) with (M * k * U * N) by ring.
      apply Z.mul_le_mono_pos_r; assumption. }
    change U with (2 ^ (0 + 1074)).
    apply round_aux_within; try assumption; try lia.
    + change (2 ^ (0 + 1074)) with U. fold A.
      apply (Z.mul_le_mono_pos_r _ _ (k * N) KN).
      apply Z.le_trans with (m := Z.pos m1 * S * A); [|exact W].
      replace (q * A * (k * N)) with (q * (k * N) * A) by ring.
      apply Z.mul_le_mono_pos_r; [assumption|].
      rewrite <- Hm2. fold m'. nia.
    + rewrite new_location_exact. intros R0. apply Z.eqb_neq in R0. fold r in R0.
      change (2 ^ (0 + 1074)) with U. fold A.
      apply (Z.mul_lt_mono_pos_r (k * N) _ _ KN).
      apply Z.lt_le_trans with (m := Z.pos m1 * S * A); [|exact W].
      replace (q * A * (k * N)) with (q * (k * N) * A) by ring.
      apply Z.mul_lt_mono_pos_r; [assumption|].
      rewrite <- Hm2. fold m'. nia.
Qed.

Lemma fold_add_within_scale (M : Z) (l : list float) :
  1 <= M ->
  forall (acc : float) (k : Z),
  0 <= k -> M * (k + Z.of_nat (List.length l)) < 2 ^ 53 ->
  within (M * k * 2 ^ 1074) acc ->
  Forall (within (M * 2 ^ 1074)) l ->
  within (M * (k + Z.of_nat (List.length l)) * 2 ^ 1074) (fold_left add l acc).
Proof.
  intros HM. induction l as [|x l IH]; intros acc k Hk Hl Hacc Hall.
  - cbn [fold_left List.length]. now rewrite Z.add_0_r.
  - cbn [fold_left].
    replace (k + Z.of_nat (List.length (x :: l)))
      with ((k + 1) + Z.of_nat (List.length l)) in *
      by (cbn [List.length]; lia).
    inversion Hall as [|? ? Hx Hrest]; subst.
    assert (PU : 0 < 2 ^ 1074) by (apply pow2_pos; lia).
    apply IH; try lia; try assumption.
    change (2 ^ 1074) with (2 ^ (0 + 1074)) at 1.
    apply (add_within acc x (M * k * 2 ^ 1074) (M * 2 ^ 1074)); try assumption.
    + nia.
    + nia.
    + nia.
    + change (2 ^ (0 + 1074)) with (2 ^ 1074). lia.
Qed.

Lemma rounded_within_scale (M : Z) (avg : float) :
  1 <= M < 2 ^ 53 ->
  within (M * 2 ^ (0 + 1074)) avg ->
  exists r, round_half_up_int avg = Return r /\ 0 <= r <= M.
Proof.
  intros HM W. destruct avg as [s|s| |[|] m e]; try contradiction.
  - exists 0. split; [apply round_half_up_int_zero | lia].
  - destruct W as [E V]. change (2 ^ (0 + 1074)) with unit_scale in V.
    assert (PU : 0 < unit_scale) by (apply pow2_pos; lia).
    rewrite round_half_up_int_finite. cbv zeta.
    pose proof (nearest_half_up_lower m e) as L.
    assert (R : nearest_half_up m e < M + 1).
    { rewrite ScoreClaims.nearest_half_up_units by lia.
      apply Z.div_lt_upper_bound; nia. }
    assert (T : 2 ^ 53 < 10 ^ 28) by reflexivity.
    destruct (Z.leb_spec (10 ^ 28) (nearest_half_up m e)); [lia|].
    exists (nearest_half_up m e). cbn [cond_Zopp]. split; [reflexivity | lia].
Qed.

(** *** Conversions of marks *)

Lemma of_Z_within (M z : Z) :
  0 <= z <= M -> M < 2 ^ 53 -> within (M * 2 ^ 1074) (of_Z z).
Proof.
  intros [L U] HM. destruct z as [|p|p]; [exact I| |lia].
  unfold of_Z. cbn [binary_normalize].
  assert (P : 0 < 2 ^ 1074) by (apply pow2_pos; lia).
  apply (within_weaken (Z.pos p * 2 ^ (0 + 1074))).
  - apply binary_round_within; lia.
  - change (0 + 1074) with 1074. nia.
Qed.

(** A mark on a scale from 0 to [M]: a boolean, an int or a string of
    ASCII digits with a value up to [M], a well-formed double between 0
    and [M]; or anything that the filter drops. *)
Definition mark_within (M : Z) (s : pyobj) : Prop :=
  match s with
  | PyInt z => 0 <= z <= M
  | PyFloat f => valid f = true /\ is_finite f = true /\ 0 <= units f <= M * unit_scale
  | PyStr t => isdigit t = true -> all_ascii_digits t = true /\ numeral_value 0 t <= M
  | PyBool _ | PyNone | PyList _ | PyDict _ => True
  end.

Lemma mark_within_float (M : Z) (f : float) :
  valid f = true -> is_finite f = true -> 0 <= units f <= M * unit_scale ->
  within (M * 2 ^ 1074) f.
Proof.
  intros V F [L U]. destruct f as [s|s| |s m e]; try discriminate; [exact I|].
  unfold valid, valid_binary, bounded, canonical_mantissa in V.
  apply andb_prop in V as [C _]. apply Z.eqb_eq in C. rewrite fexp_eq in C.
  assert (E : -1074 <= e) by lia.
  assert (P : 0 < 2 ^ (e + 1074)) by (apply pow2_pos; lia).
  cbn [units] in L, U. unfold unit_scale in U.
  destruct s; cbn [cond_Zopp] in L, U; cbn [within]; [nia | split; assumption].
Qed.

Lemma mark_converts (M : Z) (s : pyobj) :
  1 <= M < 2 ^ 53 -> mark_within M s -> keeps s = true ->
  exists f, to_float s = Return f /\ within (M * 2 ^ 1074) f.
Proof.
  intros HM W K. destruct s as [|b|z|f|t|l|d]; try discriminate K.
  - exists (of_Z (if b then 1 else 0)). split; [reflexivity|].
    apply of_Z_within; [destruct b; lia | lia].
  - cbn [mark_within] in W. exists (of_Z z). split.
    + cbn [to_float]. apply of_int_small. lia.
    + apply of_Z_within; lia.
  - destruct W as (V & F & R). exists f. split; [reflexivity|].
    now apply mark_within_float.
  - cbn [mark_within] in W. unfold keeps in K.
    cbn [str_isdigit isinstance_int_float] in K. rewrite orb_false_r in K.
    destruct (W K) as [D U]. exists (of_Z (numeral_value 0 t)). split.
    + cbn [to_float]. apply float_of_str_ascii; [|exact D].
      intros ->. discriminate K.
    + apply of_Z_within; [|lia].
      split; [apply numeral_value_lower; [exact D | lia] | exact U].
Qed.

Lemma mark_has_text (M : Z) (s : pyobj) :
  1 <= M < 2 ^ 53 -> mark_within M s -> str_raises s = false.
Proof.
  intros HM W. destruct s as [|b|z|f|t|l|d]; try reflexivity.
  cbn [mark_within] in W. apply str_raises_small.
  assert (2 ^ 53 < 2 ^ 1024) by (vm_compute; reflexivity). lia.
Qed.

Lemma marks_convert (M : Z) (scores : list pyobj) :
  1 <= M < 2 ^ 53 -> Forall (mark_within M) scores ->
  exists valid, comprehension scores = Return valid /\
                Forall (within (M * 2 ^ 1074)) valid /\
                len valid <= len scores.
Proof.
  intros HM. induction 1 as [|s rest Hs Hrest IH].
  - exists []. repeat split; [constructor | reflexivity].
  - destruct IH as (valid & C & F & L). cbn [comprehension].
    rewrite (mark_has_text M s HM Hs).
    destruct (keeps s) eqn:K.
    + destruct (mark_converts M s HM Hs K) as (f & T & W).
      exists (f :: valid). rewrite T, C. cbn [bind]. repeat split.
      * now constructor.
      * unfold len in *. cbn [List.length]. lia.
    + exists valid. repeat split; try assumption.
      unfold len in *. cbn [List.length]. lia.
Qed.

(** X8.  On a list of marks on a scale from 0 to [M] (mixed with anything
    the filter drops) the function raises nothing and returns a score
    between 0 and [M], for every [top_n >= 1].  ([M] times the length of
    the list stays below 2^53, so that the sums are doubles.) *)
Theorem marks_within_scale_give_a_score_within_scale (M : Z)
    (scores : list pyobj) (top_n : Z) :
  1 <= top_n ->
  1 <= M ->
  M * Z.max 1 (len scores) < 2 ^ 53 ->
  Forall (mark_within M) scores ->
  exists r, calculate_final_score scores top_n = Return r /\ 0 <= r <= M.
Proof.
  intros N HM HL F.
  assert (M53 : 1 <= M < 2 ^ 53) by nia.
  destruct (marks_convert M scores M53 F) as (valid & C & W & L).
  destruct valid as [|f fs] eqn:V.
  { exists 0. split; [|lia].
    unfold calculate_final_score. destruct (is_empty scores); [reflexivity|].
    now rewrite C. }
  rewrite <- V in *.
  assert (NE : valid <> []) by (rewrite V; discriminate).
  rewrite (calculate_final_score_valid scores top_n valid C NE).
  rewrite (average_selected valid top_n NE N). cbn [bind].
  apply rounded_within_scale; [exact M53|]. unfold selected_mean.
  set (top := top_scores_of valid top_n).
  assert (Lt : len top = Z.min top_n (len valid)).
  { unfold top, top_scores_of. rewrite slice_to_length by lia.
    unfold len. now rewrite sort_reverse_length. }
  assert (L1 : 1 <= len valid).
  { unfold len. destruct valid; [congruence | cbn [List.length]; lia]. }
  assert (Ft : Forall (within (M * 2 ^ 1074)) top).
  { unfold top, top_scores_of. rewrite slice_to_firstn by lia.
    apply Forall_firstn.
    eapply Permutation_Forall; [symmetry; apply sort_reverse_perm | exact W]. }
  apply div_within_scale; try lia; [nia|].
  unfold sum.
  replace (len top) with (0 + Z.of_nat (List.length top)) by (unfold len; lia).
  apply fold_add_within_scale; try assumption; try lia.
  - unfold len in *. nia.
  - exact I.
Qed.

Lemma marks_within_scale_give_a_score_within_scale_witness :
  let scores := [PyInt 20; PyStr "17"; PyStr "n/a"; PyBool true; PyNone; PyInt 0] in
  Forall (mark_within 20) scores /\
  calculate_final_score scores 2 = Return 19 /\
  exists r, calculate_final_score scores 2 = Return r /\ 0 <= r <= 20.
Proof.
  intros scores.
  assert (F : Forall (mark_within 20) scores).
  { unfold scores. repeat apply Forall_cons; try apply Forall_nil;
      cbn [mark_within]; try exact I; try lia.
    - intros _. split; [reflexivity | vm_compute; discriminate].
    - intros H. discriminate H. }
  split; [exact F|]. split; [vm_compute; reflexivity|].
  apply (marks_within_scale_give_a_score_within_scale 20 scores 2).
  - lia.
  - lia.
  - vm_compute. reflexivity.
  - exact F.
Defined.

End RangeExtras.

(* ===================================================================== *)
(** ** Further properties of the per-file loop *)
(* ===================================================================== *)

Module BatchExtras.

Import Score Batch.

Section MainLoop.

Variable json_loads : string -> string + pyobj.
Variable threshold_count : Z.

Abbreviation process_image_with_gemini := (process_image_with_gemini json_loads).
Abbreviation step := (step json_loads threshold_count).
Abbreviation loop := (loop json_loads threshold_count).
Abbreviation process_batch := (process_batch json_loads threshold_count).

(** The file is passed over at line 102: the decoded value holds "error". *)
Definition skipped (u : upload) : bool :=
  match py_in "error" (process_image_with_gemini u) with
  | Return true => true
  | _ => false
  end.

(** The score of a record is the function's value on its raw scores. *)
Definition scored (r : ResultRecord) : Prop :=
  calculate_final_score_any (raw_scores r) threshold_count = Return (final_score r).

Lemma step_returns (total : Z) (st st' : state) (i : Z) (u : upload) :
  step total st i u = Return st' ->
  (skipped u = true /\ results st' = results st) \/
  (skipped u = false /\
   exists r, results st' = results st ++ [r] /\ source r = filename u /\ scored r).
Proof.
  unfold Batch.step, skipped. intros H.
  destruct (negb (image_opens u)); [discriminate|].
  destruct (py_in "error" (process_image_with_gemini u)) as [[|]|e];
    cbn [bind] in H; [| |discriminate].
  - left. split; [reflexivity|].
    destruct (getitem _ _); cbn in H; [|discriminate]. now inversion H.
  - right. split; [reflexivity|].
    destruct (get _ "seat_number" _) as [seat|]; cbn [bind] in H; [|discriminate].
    destruct (get _ "valid_scores" _) as [raw|]; cbn [bind] in H; [|discriminate].
    destruct (calculate_final_score_any raw threshold_count) as [final|] eqn:S;
      cbn [bind] in H; [|discriminate].
    inversion H. cbn.
    exists {| source := filename u; seat_number := seat;
              final_score := final; raw_scores := raw |}.
    repeat split. exact S.
Qed.

Lemma loop_returns (uploads : list upload) :
  forall total st st' i,
  loop total st i uploads = Return st' ->
  exists rows,
    results st' = results st ++ rows /\
    map source rows = map filename (filter (fun u => negb (skipped u)) uploads) /\
    Forall scored rows.
Proof.
  induction uploads as [|u rest IH]; intros total st st' i H; cbn [Batch.loop] in H.
  - inversion H; subst. exists []. rewrite app_nil_r. repeat split. constructor.
  - destruct (step total st i u) as [a|e] eqn:S; cbn [bind] in H; [|discriminate].
    destruct (IH _ _ _ _ H) as (rows & R & M & F).
    cbn [filter].
    destruct (step_returns total st a i u S) as [[K Ra]|(K & r & Ra & Sr & Fr)];
      rewrite K; cbn [negb].
    + exists rows. rewrite R, Ra. repeat split; assumption.
    + exists (r :: rows). rewrite R, Ra, <- app_assoc. cbn [app map].
      repeat split; [now rewrite Sr, M | now constructor].
Qed.

(** X9.  When the batch completes, the table has one row for each file
    that was not passed over, in the order of the upload, and the score of
    each row is [calculate_final_score] of that row's raw scores at the
    configured threshold. *)
Theorem table_follows_the_upload_order (uploads : list upload) (st : state) :
  process_batch uploads = Return st ->
  map source (results st)
    = map filename (filter (fun u => negb (skipped u)) uploads) /\
  Forall scored (results st).
Proof.
  unfold Batch.process_batch. intros H.
  destruct (loop_returns uploads _ _ _ _ H) as (rows & R & M & F).
  cbn [results start app] in R. rewrite R. split; assumption.
Qed.

(** *** What aborts the batch *)

(** Scoring the reply of [u] raises: the reply decodes to an object
    without "error" whose scores make [calculate_final_score] raise. *)
Definition scoring_raises (u : upload) : Prop :=
  exists items e,
    process_image_with_gemini u = PyDict items /\
    lookup "error" items = None /\
    calculate_final_score_any
      (match lookup "valid_scores" items with Some v => v | None => PyList [] end)
      threshold_count = Raise e.

Lemma step_raises (u : upload) :
  image_opens u = false \/ scoring_raises u ->
  forall total st i, exists e, step total st i u = Raise e.
Proof.
  intros [O|(items & e & D & E & S)] total st i; unfold Batch.step.
  - rewrite O. cbn [negb]. eexists. reflexivity.
  - destruct (negb (image_opens u)); [eexists; reflexivity|].
    rewrite D. cbn [py_in]. rewrite E. cbn [bind get]. rewrite S. cbn [bind].
    eexists. reflexivity.
Qed.

Lemma loop_raises (uploads : list upload) (u : upload) :
  In u uploads ->
  (forall total st i, exists e, step total st i u = Raise e) ->
  forall total st i, exists e, loop total st i uploads = Raise e.
Proof.
  intros I R. induction uploads as [|v rest IH]; [contradiction|].
  intros total st i. cbn [Batch.loop].
  destruct I as [->|I].
  - destruct (R total st i) as [e ->]. exists e. reflexivity.
  - destruct (step total st i v) as [a|e]; cbn [bind].
    + now apply IH.
    + exists e. reflexivity.
Qed.

(** X10.  Unlike a failed extraction, an image that cannot be opened, or
    a reply whose scores make [calculate_final_score] raise, is caught
    nowhere: one such file anywhere in the batch and the batch ends with
    an exception and no table. *)
Theorem unreadable_image_or_scoring_error_aborts (uploads : list upload)
    (u : upload) :
  In u uploads ->
  image_opens u = false \/ scoring_raises u ->
  table (process_batch uploads) = None.
Proof.
  intros I H. unfold Batch.process_batch.
  destruct (loop_raises uploads u I (step_raises u H) (len uploads) start 0)
    as [e ->].
  reflexivity.
Qed.

(** *** Replies without scores *)

(** X11.  A reply that decodes to an object without "error" and whose
    "valid_scores" is missing, null, empty or zero is no error: the file
    gets a row with the final score 0, and the seat number of the reply
    or, when that is missing too, the placeholder. *)
Theorem reply_without_scores_gets_zero (total : Z) (st : state) (i : Z)
    (u : upload) (items : list (string * pyobj)) :
  image_opens u = true ->
  process_image_with_gemini u = PyDict items ->
  lookup "error" items = None ->
  let raw := match lookup "valid_scores" items with
             | Some v => v
             | None => PyList []
             end in
  truthy raw = false ->
  exists st',
    step total st i u = Return st' /\
    results st'
      = results st
        ++ [ {| source := filename u;
                seat_number := match lookup "seat_number" items with
                               | Some v => v
                               | None => unknown_seat
                               end;
                final_score := 0;
                raw_scores := raw |} ].
Proof.
  intros O D E raw T. unfold Batch.step.
  rewrite O, D. cbn [negb py_in]. rewrite E. cbn [bind get].
  fold raw. unfold calculate_final_score_any. rewrite T. cbn [negb bind].
  eexists. split; reflexivity.
Qed.

End MainLoop.

Definition demo_json_loads (text : string) : string + pyobj :=
  if String.eqb text "{a}"
  then inr (PyDict [("seat_number"%string, PyStr "7");
                    ("valid_scores"%string, PyList [PyInt 88; PyInt 89])])
  else if String.eqb text "{b}"
  then inr (PyDict [("seat_number"%string, PyStr "3");
                    ("valid_scores"%string, PyList [PyInt 90; PyStr "²"])])
  else if String.eqb text "{c}"
  then inr (PyDict [("valid_scores"%string, PyNone)])
  else inl "Expecting value"%string.

Definition file (name : string) (text : string) : upload :=
  {| filename := name; image_opens := true; reply := inr text |}.

Definition demo_uploads : list upload :=
  [file "1.jpg" "{a}"; file "2.jpg" "oops"; file "3.jpg" "{c}"].

Lemma table_follows_the_upload_order_witness :
  exists st,
    process_batch demo_json_loads 12 demo_uploads = Return st /\
    map source (results st) = ["1.jpg"; "3.jpg"]%string.
Proof.
  assert (H : exists st, process_batch demo_json_loads 12 demo_uploads = Return st)
    by (eexists; reflexivity).
  destruct H as [st H]. exists st. split; [exact H|].
  exact (proj1 (table_follows_the_upload_order demo_json_loads 12 demo_uploads st H)).
Defined.

Lemma unreadable_image_or_scoring_error_aborts_witness :
  table (process_batch demo_json_loads 12 [file "1.jpg" "{a}"; file "2.jpg" "{b}"])
    = None.
Proof.
  apply (unreadable_image_or_scoring_error_aborts demo_json_loads 12
           [file "1.jpg" "{a}"; file "2.jpg" "{b}"] (file "2.jpg" "{b}")).
  - cbn. auto.
  - right. eexists. exists ValueError. split; [reflexivity|].
    split; reflexivity.
Defined.

Lemma reply_without_scores_gets_zero_witness :
  exists st',
    step demo_json_loads 12 1 start 0 (file "3.jpg" "{c}") = Return st' /\
    results st'
      = [ {| source := "3.jpg"; seat_number := unknown_seat; final_score := 0;
             raw_scores := PyNone |} ].
Proof.
  apply (reply_without_scores_gets_zero demo_json_loads 12 1 start 0
           (file "3.jpg" "{c}") [("valid_scores"%string, PyNone)]);
    reflexivity.
Defined.

(** *** Unwrapping a fenced reply (line 56) *)

(** The byte [c] does not occur in [s]. *)
Fixpoint free_of (c : ascii) (s : string) : bool :=
  match s with
  | EmptyString => true
  | String d rest => negb (Ascii.eqb c d) && free_of c rest
  end.

Definition newline : string := String "010" EmptyString.

Lemma length_append (a b : string) :
  String.length (a ++ b) = (String.length a + String.length b)%nat.
Proof. induction a as [|c a IH]; cbn; [reflexivity | now rewrite IH]. Qed.

Lemma append_assoc (a b c : string) : ((a ++ b) ++ c = a ++ (b ++ c))%string.
Proof. induction a as [|d a IH]; cbn; [reflexivity | now rewrite IH]. Qed.

Lemma append_nil_r (a : string) : (a ++ "" = a)%string.
Proof. induction a as [|d a IH]; cbn; [reflexivity | now rewrite IH]. Qed.

Lemma free_of_append (c : ascii) (a b : string) :
  free_of c (a ++ b) = free_of c a && free_of c b.
Proof.
  induction a as [|d a IH]; cbn [String.append free_of]; [reflexivity|].
  now rewrite IH, andb_assoc.
Qed.

Lemma drop_prefix_append (p r : string) : drop_prefix p (p ++ r) = Some r.
Proof.
  induction p as [|c p IH]; cbn [String.append drop_prefix]; [now destruct r|].
  now rewrite Ascii.eqb_refl.
Qed.

Lemma remove_fuel_empty (fuel : nat) (old : string) :
  old <> EmptyString -> remove_fuel fuel old "" = EmptyString.
Proof.
  intros H. destruct fuel; [reflexivity|]. cbn [remove_fuel].
  destruct old; [congruence | reflexivity].
Qed.

(** A stretch without backticks is copied, whatever follows. *)
Lemma remove_fuel_free (p a t : string) :
  free_of "`" a = true ->
  forall fuel, (String.length a <= fuel)%nat ->
  remove_fuel fuel (String "`" p) (a ++ t)
    = (a ++ remove_fuel (fuel - String.length a) (String "`" p) t)%string.
Proof.
  intros F. induction a as [|c a IH]; intros fuel L.
  - cbn [String.append String.length]. now rewrite Nat.sub_0_r.
  - cbn [free_of] in F. apply andb_prop in F as [C F].
    destruct fuel as [|fuel]; [cbn in L; lia|].
    cbn [String.append remove_fuel drop_prefix String.length Nat.sub].
    apply negb_true_iff in C. rewrite C.
    rewrite IH; [reflexivity | exact F | cbn in L; lia].
Qed.

(** A text without backticks is left as it is. *)
Lemma remove_free (p a : string) :
  free_of "`" a = true -> remove (String "`" p) a = a.
Proof.
  intros F. unfold remove.
  pose proof (remove_fuel_free p a "" F (String.length a) (le_n _)) as H.
  rewrite append_nil_r in H. rewrite H.
  rewrite remove_fuel_empty by discriminate. apply append_nil_r.
Qed.

Lemma remove_fuel_step (fuel : nat) (old s rest : string) :
  drop_prefix old s = Some rest ->
  remove_fuel (S fuel) old s = remove_fuel fuel old rest.
Proof. intros H. cbn [remove_fuel]. now rewrite H. Qed.

Lemma remove_fence_only (fuel : nat) : remove_fuel fuel "```json" "```" = "```"%string.
Proof. destruct fuel as [|[|[|[|fuel]]]]; reflexivity. Qed.

Lemma continuation_ascii (n : ascii) :
  (N_of_ascii n < 128)%N -> Unicode.continuation n = None.
Proof.
  intros H. unfold Unicode.continuation.
  now rewrite (proj2 (N.leb_gt _ _) H).
Qed.

Lemma two_bytes_ascii (a n : ascii) :
  (N_of_ascii n < 128)%N -> Unicode.two_bytes a n = None.
Proof.
  intros H. unfold Unicode.two_bytes. rewrite (continuation_ascii n H).
  now destruct (_ && _).
Qed.

Lemma three_bytes_ascii (a b n : ascii) :
  (N_of_ascii n < 128)%N -> Unicode.three_bytes a b n = None.
Proof.
  intros H. unfold Unicode.three_bytes. rewrite (continuation_ascii n H).
  destruct (_ && _); [|reflexivity]. now destruct (Unicode.continuation b).
Qed.

Lemma three_bytes_ascii_mid (a n c : ascii) :
  (N_of_ascii n < 128)%N -> Unicode.three_bytes a n c = None.
Proof.
  intros H. unfold Unicode.three_bytes. rewrite (continuation_ascii n H).
  now destruct (_ && _).
Qed.

Lemma lstrip_cons (a : ascii) (s1 : string) :
  lstrip (String a s1)
    = if is_py_space a then lstrip s1
      else
        match s1 with
        | EmptyString => String a s1
        | String b s2 =>
            match Unicode.two_bytes a b with
            | Some p => if Unicode.is_space p then lstrip s2 else String a s1
            | None =>
                match s2 with
                | EmptyString => String a s1
                | String c s3 =>
                    match Unicode.three_bytes a b c with
                    | Some p => if Unicode.is_space p then lstrip s3 else String a s1
                    | None => String a s1
                    end
                end
            end
        end.
Proof. destruct s1 as [|b [|c s3]]; reflexivity. Qed.

(** Stripping the head of a text looks at most at the head of what follows
    it, and not at all when that starts with an ASCII character. *)
Lemma lstrip_app (n : ascii) (x : string) :
  (N_of_ascii n < 128)%N ->
  forall (k : nat) (s : string), (String.length s <= k)%nat ->
  lstrip (s ++ String n x)
    = match lstrip s with
      | EmptyString => lstrip (String n x)
      | r => (r ++ String n x)%string
      end.
Proof.
  intros A. induction k as [|k IH]; intros s L.
  { destruct s; [reflexivity | cbn [String.length] in L; lia]. }
  destruct s as [|a s1]; [reflexivity|].
  cbn [String.length] in L.
  change ((String a s1 ++ String n x)%string)
    with (String a (s1 ++ String n x)).
  rewrite (lstrip_cons a (s1 ++ String n x)), (lstrip_cons a s1).
  destruct (is_py_space a); [apply IH; lia|].
  destruct s1 as [|b s2].
  { cbn [String.append]. rewrite (two_bytes_ascii a n A).
    destruct x as [|c s3]; [reflexivity|].
    now rewrite (three_bytes_ascii_mid a n c A). }
  cbn [String.length] in L.
  change ((String b s2 ++ String n x)%string)
    with (String b (s2 ++ String n x)).
  cbv iota.
  destruct (Unicode.two_bytes a b) as [p|].
  { destruct (Unicode.is_space p); [apply IH; lia | reflexivity]. }
  destruct s2 as [|c s3].
  { cbn [String.append]. now rewrite (three_bytes_ascii a b n A). }
  cbn [String.length] in L.
  change ((String c s3 ++ String n x)%string)
    with (String c (s3 ++ String n x)).
  cbv iota.
  destruct (Unicode.three_bytes a b c) as [p|]; [|reflexivity].
  destruct (Unicode.is_space p); [apply IH; lia | reflexivity].
Qed.

Lemma lstrip_newline (s : string) :
  lstrip (s ++ newline)
    = match lstrip s with
      | EmptyString => EmptyString
      | r => (r ++ newline)%string
      end.
Proof.
  unfold newline.
  rewrite (lstrip_app "010" EmptyString ltac:(reflexivity) (String.length s) s (le_n _)).
  reflexivity.
Qed.

Lemma rstrip_newline (s : string) : rstrip (s ++ newline) = rstrip s.
Proof.
  induction s as [|c s IH]; [reflexivity|].
  change ((String c s ++ newline)%string) with (String c (s ++ newline)).
  cbn [rstrip]. rewrite IH.
  change (String c (s ++ newline)) with ((String c s ++ newline)%string).
  rewrite lstrip_newline.
  destruct (lstrip (String c s)); reflexivity.
Qed.

(** X12.  A reply wrapped in a Markdown fence is unwrapped: when the body
    holds no backtick and neither starts nor ends with white space, the
    fenced reply and the bare body both clean to the body, so
    [json.loads] sees the same text either way. *)
Theorem fenced_reply_is_unwrapped (body : string) :
  free_of "`" body = true ->
  lstrip body = body ->
  rstrip body = body ->
  clean ("```json" ++ newline ++ body ++ newline ++ "```") = body /\
  clean body = body.
Proof.
  intros F L R. split.
  - unfold clean.
    assert (Fa : free_of "`" (newline ++ body ++ newline) = true).
    { rewrite !free_of_append, F. reflexivity. }
    assert (S1 : remove "```json" ("```json" ++ newline ++ body ++ newline ++ "```")
                 = ((newline ++ body ++ newline) ++ "```")%string).
    { unfold remove. rewrite length_append.
      set (n := String.length (newline ++ body ++ newline ++ "```")).
      change (String.length "```json" + n)%nat with (S (6 + n)).
      rewrite (remove_fuel_step (6 + n) _ _ _ (drop_prefix_append _ _)).
      subst n.
      replace (newline ++ body ++ newline ++ "```")%string
        with ((newline ++ body ++ newline) ++ "```")%string
        by (now rewrite !append_assoc).
      rewrite (remove_fuel_free "``json" _ "```" Fa)
        by (rewrite !length_append; lia).
      now rewrite remove_fence_only. }
    rewrite S1.
    assert (S2 : remove "```" ((newline ++ body ++ newline) ++ "```")
                 = (newline ++ body ++ newline)%string).
    { unfold remove. rewrite length_append.
      rewrite (remove_fuel_free "``" _ "```" Fa) by lia.
      change (String.length "```") with 3%nat.
      replace (String.length (newline ++ body ++ newline) + 3
               - String.length (newline ++ body ++ newline))%nat with 3%nat by lia.
      change (remove_fuel 3 "```" "```") with EmptyString.
      apply append_nil_r. }
    rewrite S2.
    change (lstrip (newline ++ body ++ newline)) with (lstrip (body ++ newline)).
    rewrite lstrip_newline, L.
    destruct body as [|c b] eqn:B; [reflexivity|]. rewrite <- B in *.
    now rewrite rstrip_newline.
  - unfold clean.
    rewrite (remove_free "``json" body F), (remove_free "``" body F).
    now rewrite L.
Qed.

Lemma fenced_reply_is_unwrapped_witness :
  clean ("```json" ++ newline ++ "[88, 89]" ++ newline ++ "```") = "[88, 89]"%string /\
  clean "[88, 89]" = "[88, 89]"%string.
Proof.
  apply (fenced_reply_is_unwrapped "[88, 89]"); reflexivity.
Defined.

End BatchExtras.

(** ** The place of records without a seat number (lines 107, 126-130) *)

Module SeatsExtras.

Import Py Score Seats.








End SeatsExtras.
